(** * The face database of the recognition server

    A shallow embedding of the Express server that keeps registered faces in
    the module-level array [faceDB] and serves [POST /api/register-face] and
    [POST /api/recognize-face], of its other routes, and of the client
    components that call it.

    Numbers.  A descriptor is an array of JavaScript numbers, and the code is
    given twice.  [Server64] computes as the engine does, on binary64: every
    operation rounds, a sum can overflow to [Infinity], a square can
    underflow to 0, and the literal [0.6] is the nearest binary64 number.
    Every property that depends on the value a distance has (acceptance at
    the threshold, ties, the value of the distance itself, what is returned
    after a registration) is stated on it.  [Server] computes the same
    expressions on exact real numbers, with [Infinity], its negation and
    [NaN] added; it carries the properties that rounding does not touch.

    Strings are held as their UTF-8 bytes.

    Request bodies.  A field is either absent ([None], which also stands for
    JSON [null]) or present with the type the client sends: a string for
    [name], an array of numbers for [descriptor]. *)

From Stdlib Require Import Reals Lra Lia List String Ascii Bool Arith DecimalString.
From Stdlib Require ZArith Floats Permutation.
Set Warnings "-inexact-float".
Import ListNotations.
Local Open Scope R_scope.

(** ** JavaScript numbers, with exact arithmetic *)

Module JS.

Inductive number : Type :=
| Num (r : R)
| Infinity
| NegInfinity
| NaN.

Definition Rltb (x y : R) : bool := if Rlt_dec x y then true else false.
Definition Reqb (x y : R) : bool := if Req_dec_T x y then true else false.

(** [a - b] *)
Definition sub (a b : number) : number :=
  match a, b with
  | NaN, _ | _, NaN => NaN
  | Num x, Num y => Num (x - y)
  | Num _, Infinity => NegInfinity
  | Num _, NegInfinity => Infinity
  | Infinity, Infinity => NaN
  | Infinity, _ => Infinity
  | NegInfinity, NegInfinity => NaN
  | NegInfinity, _ => NegInfinity
  end.

(** [a + b] *)
Definition add (a b : number) : number :=
  match a, b with
  | NaN, _ | _, NaN => NaN
  | Num x, Num y => Num (x + y)
  | Num _, Infinity => Infinity
  | Num _, NegInfinity => NegInfinity
  | Infinity, NegInfinity => NaN
  | Infinity, _ => Infinity
  | NegInfinity, Infinity => NaN
  | NegInfinity, _ => NegInfinity
  end.

(** [a / b]; a zero divisor is the positive zero. *)
Definition div (a b : number) : number :=
  match a, b with
  | NaN, _ | _, NaN => NaN
  | Num x, Num y =>
      if Reqb y 0
      then (if Reqb x 0 then NaN else if Rltb 0 x then Infinity else NegInfinity)
      else Num (x / y)
  | Num _, (Infinity | NegInfinity) => Num 0
  | Infinity, Num y => if Rltb y 0 then NegInfinity else Infinity
  | NegInfinity, Num y => if Rltb y 0 then Infinity else NegInfinity
  | _, _ => NaN
  end.

(** [a < b]; every comparison with [NaN] is false. *)
Definition lt (a b : number) : bool :=
  match a, b with
  | NaN, _ | _, NaN => false
  | Num x, Num y => Rltb x y
  | Num _, Infinity => true
  | NegInfinity, (Num _ | Infinity) => true
  | _, _ => false
  end.

(** [Math.pow(base, exponent)] for a non-negative integer exponent. *)
Definition Math_pow (base : number) (exponent : nat) : number :=
  match exponent with
  | O => Num 1
  | _ =>
      match base with
      | Num x => Num (x ^ exponent)
      | Infinity => Infinity
      | NegInfinity => if Nat.even exponent then Infinity else NegInfinity
      | NaN => NaN
      end
  end.

(** [Math.sqrt(x)] *)
Definition Math_sqrt (x : number) : number :=
  match x with
  | Num r => if Rltb r 0 then NaN else Num (sqrt r)
  | Infinity => Infinity
  | NegInfinity | NaN => NaN
  end.

(** [a[i]]: [None] is [undefined], the value of a read past the end. *)
Definition at_index (a : list R) (i : nat) : option R := nth_error a i.

(** The conversion an arithmetic operator applies to its operand. *)
Definition ToNumber (v : option R) : number :=
  match v with
  | Some r => Num r
  | None => NaN
  end.

(** Truthiness of a string-valued field: absent and [""] are falsy. *)
Definition truthy (v : option string) : bool :=
  match v with
  | Some s => negb (s =? "")%string
  | None => false
  end.

(** White space and line terminators of one byte: TAB, LF, VT, FF, CR and
    the space. *)
Definition is_whitespace (c : ascii) : bool :=
  match nat_of_ascii c with
  | 9%nat | 10%nat | 11%nat | 12%nat | 13%nat | 32%nat => true
  | _ => false
  end.

(** A string is held as its UTF-8 bytes.  The white space of two bytes:
    U+00A0. *)
Definition is_whitespace2 (c1 c2 : ascii) : bool :=
  (nat_of_ascii c1 =? 194)%nat && (nat_of_ascii c2 =? 160)%nat.

(** The white space and line terminators of three bytes: U+1680,
    U+2000 to U+200A, U+2028, U+2029, U+202F, U+205F, U+3000 and U+FEFF. *)
Definition is_whitespace3 (c1 c2 c3 : ascii) : bool :=
  let b1 := nat_of_ascii c1 in
  let b2 := nat_of_ascii c2 in
  let b3 := nat_of_ascii c3 in
  ((b1 =? 225) && (b2 =? 154) && (b3 =? 128))%nat
  || ((b1 =? 226) && (b2 =? 128)
      && (((128 <=? b3) && (b3 <=? 138)) || (b3 =? 168) || (b3 =? 169) || (b3 =? 175)))%nat
  || ((b1 =? 226) && (b2 =? 129) && (b3 =? 159))%nat
  || ((b1 =? 227) && (b2 =? 128) && (b3 =? 128))%nat
  || ((b1 =? 239) && (b2 =? 187) && (b3 =? 191))%nat.

(** [s.trimStart()] *)
Fixpoint trimStart (s : string) : string :=
  match s with
  | EmptyString => EmptyString
  | String c1 rest1 =>
      if is_whitespace c1 then trimStart rest1
      else
        match rest1 with
        | String c2 rest2 =>
            if is_whitespace2 c1 c2 then trimStart rest2
            else
              match rest2 with
              | String c3 rest3 =>
                  if is_whitespace3 c1 c2 c3 then trimStart rest3 else s
              | EmptyString => s
              end
        | EmptyString => s
        end
  end.

(** [s.trimEnd()]: what is left once the longest tail of white space is cut. *)
Fixpoint trimEnd (s : string) : string :=
  match s with
  | EmptyString => EmptyString
  | String c rest =>
      if (trimStart s =? "")%string then EmptyString else String c (trimEnd rest)
  end.

(** [s.trim()] *)
Definition trim (s : string) : string := trimEnd (trimStart s).

End JS.

(** ** The server, on exact arithmetic *)

Module Server.
Import JS.

(** An entry of [faceDB]: [{ name, descriptor }]. *)
Record person : Type := { name : string; descriptor : list R }.

(** [let faceDB = []] *)
Definition faceDB_init : list person := [].

(** [function euclideanDistance(d1, d2)] *)
Definition euclideanDistance (d1 d2 : list R) : number :=
  let sum :=
    fold_left
      (fun sum i =>
         add sum (Math_pow (sub (ToNumber (at_index d1 i)) (ToNumber (at_index d2 i))) 2))
      (seq 0 (List.length d1))   (* for (let i = 0; i < d1.length; i++) *)
      (Num 0) in
  Math_sqrt sum.

(** *** [POST /api/register-face] *)

Record register_body : Type :=
  { reg_name : option string; reg_descriptor : option (list R) }.

Record register_response : Type :=
  { reg_status : nat;
    reg_success : bool;
    reg_error : option string;
    reg_message : option string;
    reg_count : option nat }.

Definition register_face (body : register_body) (faceDB : list person)
  : register_response * list person :=
  match reg_name body, reg_descriptor body with
  | Some name, Some descriptor =>
      (* [!descriptor] is false: an array, even an empty one, is truthy *)
      if negb (truthy (Some name)) then                       (* [!name] *)
        ({| reg_status := 400; reg_success := false;
            reg_error := Some "Name and descriptor are required"%string;
            reg_message := None; reg_count := None |}, faceDB)
      else if existsb (fun entry => (entry.(Server.name) =? name)%string) faceDB then
        (* [faceDB.some(entry => entry.name === name)] *)
        ({| reg_status := 409; reg_success := false;
            reg_error := Some "Name already registered"%string;
            reg_message := None; reg_count := None |}, faceDB)
      else
        (* [faceDB.push({ name, descriptor })] *)
        let faceDB := faceDB ++ [{| name := name; descriptor := descriptor |}] in
        ({| reg_status := 200; reg_success := true;
            reg_error := None;
            reg_message := Some ("Face registered for " ++ name)%string;
            reg_count := Some (List.length faceDB) |}, faceDB)
  | _, _ =>
      (* a missing field is [undefined]: [!name || !descriptor] *)
      ({| reg_status := 400; reg_success := false;
          reg_error := Some "Name and descriptor are required"%string;
          reg_message := None; reg_count := None |}, faceDB)
  end.

(** *** [POST /api/recognize-face] *)

Record recognize_body : Type := { rec_descriptor : option (list R) }.

Record recognize_response : Type :=
  { rec_status : nat;
    rec_recognized : bool;
    rec_error : option string;
    rec_name : option string;
    rec_confidence : option number;
    rec_message : option string }.

(** [bestMatch]: [{ name, distance }], [name] possibly [null]. *)
Record best : Type := { best_name : option string; best_distance : number }.

(** The body of the [forEach] callback. *)
Definition visit (descriptor : list R) (bestMatch : best) (person : person) : best :=
  let distance := euclideanDistance descriptor person.(Server.descriptor) in
  if lt distance (Num 0.6) && lt distance bestMatch.(best_distance)
  then {| best_name := Some person.(name); best_distance := distance |}
  else bestMatch.

(** [bestMatch] after [faceDB.forEach]. *)
Definition scan (descriptor : list R) (faceDB : list person) : best :=
  fold_left (visit descriptor) faceDB
    {| best_name := None; best_distance := Infinity |}.

Definition recognize_face (body : recognize_body) (faceDB : list person)
  : recognize_response * list person :=
  match rec_descriptor body with
  | None =>
      (* [!descriptor || !Array.isArray(descriptor)] *)
      ({| rec_status := 400; rec_recognized := false;
          rec_error := Some "Valid descriptor array required"%string;
          rec_name := None; rec_confidence := None; rec_message := None |}, faceDB)
  | Some descriptor =>
      let bestMatch := scan descriptor faceDB in
      if truthy bestMatch.(best_name) then                (* [bestMatch.name ?] *)
        ({| rec_status := 200; rec_recognized := true;
            rec_error := None;
            rec_name := bestMatch.(best_name);
            rec_confidence :=
              Some (sub (Num 1) (div bestMatch.(best_distance) (Num 0.6)));
            rec_message := None |}, faceDB)
      else
        ({| rec_status := 200; rec_recognized := false;
            rec_error := None;
            rec_name := None; rec_confidence := None;
            rec_message := Some "No match found"%string |}, faceDB)
  end.

(** *** [GET /api/data]: the [faceCount] field. *)
Definition faceCount (faceDB : list person) : nat := List.length faceDB.

(** *** The server as a transition system over [faceDB] *)

Inductive request : Type :=
| RegisterFace (body : register_body)
| RecognizeFace (body : recognize_body).

Definition handle (r : request) (faceDB : list person) : list person :=
  match r with
  | RegisterFace body => snd (register_face body faceDB)
  | RecognizeFace body => snd (recognize_face body faceDB)
  end.

(** The store after serving the requests in order. *)
Definition serve (rs : list request) (faceDB : list person) : list person :=
  fold_left (fun db r => handle r db) rs faceDB.

End Server.

(** ** The registration form of the client *)

Module Client.
Import JS.

(** [captureAndSend], for the name typed in the form and the descriptor of
    the detected face: it returns before any request is sent when
    [!name.trim()]; otherwise it posts [{ name, descriptor }] with the name
    as typed. *)
Definition captureAndSend (name : string) (descriptor : list R)
  : option Server.register_body :=
  if negb (truthy (Some (trim name))) then None
  else Some {| Server.reg_name := Some name;
               Server.reg_descriptor := Some descriptor |}.

End Client.

(** ** The vocabulary of the specification *)

Module Spec.

(** The dimension of an embedding vector. *)
Definition D : nat := 128.

(** The default acceptance threshold. *)
Definition threshold : R := 0.6.

Inductive error_kind : Type := InvalidInput | DuplicateIdentity.

(** The transport mapping of the two error kinds: HTTP 400 and 409. *)
Definition error_of_status (status : nat) : option error_kind :=
  if (status =? 400)%nat then Some InvalidInput
  else if (status =? 409)%nat then Some DuplicateIdentity
  else None.



(** A label that is empty after trimming surrounding white space. *)
Definition blank (label : string) : Prop := JS.trim label = ""%string.

(** The store invariant that [register] maintains on labels: none is empty. *)
Definition labelled (store : list Server.person) : Prop :=
  Forall (fun p => Server.name p <> ""%string) store.

End Spec.

(** ** Recursive forms of the loops, used in the proofs *)

Module Loop.
Import JS.

(** The state of [sum] after running the loop of [euclideanDistance] over the
    remaining elements [d1] of the first array, [d2] being what remains of
    the second. *)
Fixpoint sum_from (sum : number) (d1 d2 : list R) : number :=
  match d1 with
  | [] => sum
  | x :: d1' =>
      sum_from (add sum (Math_pow (sub (Num x) (ToNumber (hd_error d2))) 2))
               d1' (tl d2)
  end.

(** The sum of the squared coordinate differences of two arrays, as a real. *)
Fixpoint sqdiff (d1 d2 : list R) : R :=
  match d1, d2 with
  | x :: d1', y :: d2' => (x - y) ^ 2 + sqdiff d1' d2'
  | _, _ => 0
  end.

End Loop.

(** ** The rest of the server: uploads, analysis and statistics *)

Module Uploads.

(** [req.file] as multer leaves it: the fields the code reads. *)
Record file : Type :=
  { filename : string; originalname : string; path : string; mimetype : string }.

Record upload_response : Type :=
  { up_status : nat;
    up_success : bool;
    up_error : option string;
    up_message : option string;
    up_filePath : option string;
    up_originalName : option string }.

(** [POST /api/upload-photo], after [upload.single('photo')]. *)
Definition upload_photo (file : option file) : upload_response :=
  match file with
  | None =>                                                   (* [!req.file] *)
      {| up_status := 400; up_success := false;
         up_error := Some "No image uploaded"%string;
         up_message := None; up_filePath := None; up_originalName := None |}
  | Some f =>
      let filePath := ("/uploads/" ++ filename f)%string in
      {| up_status := 200; up_success := true; up_error := None;
         up_message := Some "Image uploaded successfully"%string;
         up_filePath := Some filePath;
         up_originalName := Some (originalname f) |}
  end.

End Uploads.

Module Analysis.

(** [Math.floor(x)] on a real. *)
Definition Math_floor (x : R) : R := IZR (Int_part x).

(** [+(x).toFixed(2)]: for a magnitude below [10^21] the integer [n] for
    which [n / 100] is nearest to it, the larger one of two, divided by 100;
    the sign is put back; a magnitude from [10^21] on is printed in full. *)
Definition toFixed2_magnitude (x : R) : R :=
  if JS.Rltb x 1e21 then IZR (Int_part (x * 100 + / 2)) / 100 else x.

Definition toFixed2 (x : R) : R :=
  if JS.Rltb x 0 then - toFixed2_magnitude (- x) else toFixed2_magnitude x.

(** An element of the array that [detectAllFaces(...).withAgeAndGender()]
    resolves to: the fields the handler reads. *)
Record detection : Type :=
  { age : R; gender : string; genderProbability : R }.

(** What the two awaited calls of the handler ([canvas.loadImage] and the
    detection) come to: an exception, or the array of detections. *)
Inductive vision : Type :=
| Throws
| Detections (detections : list detection).

(** [analysisResult]: [{ age, gender, confidence }]. *)
Record analysisResult : Type :=
  { res_age : R; res_gender : string; res_confidence : R }.

(** An entry of [analysisDB]: [{ ...analysisResult, timestamp }]. *)
Record entry : Type := { result : analysisResult; timestamp : string }.

Record analyze_response : Type :=
  { an_status : nat;
    an_success : bool;
    an_error : option string;
    an_analysis : option analysisResult }.

(** [POST /api/analyze-face], after [upload.single('photo')]; [now] is
    [new Date().toISOString()]. *)
Definition analyze_face
  (file : option Uploads.file) (seen : vision) (now : string) (analysisDB : list entry)
  : analyze_response * list entry :=
  match file with
  | None =>                                                   (* [!req.file] *)
      ({| an_status := 400; an_success := false;
          an_error := Some "No photo uploaded"%string; an_analysis := None |},
       analysisDB)
  | Some _ =>
      match seen with
      | Throws =>                                             (* [catch (err)] *)
          ({| an_status := 500; an_success := false;
              an_error := Some "Analysis failed"%string; an_analysis := None |},
           analysisDB)
      | Detections [] =>                (* [!detections || detections.length === 0] *)
          ({| an_status := 400; an_success := false;
              an_error := Some "No face detected in the image."%string;
              an_analysis := None |},
           analysisDB)
      | Detections (first :: _) =>                            (* [detections[0]] *)
          let analysisResult :=
            {| res_age := Math_floor (age first);
               res_gender := gender first;
               res_confidence := toFixed2 (genderProbability first) |} in
          let analysisDB :=
            analysisDB ++ [{| result := analysisResult; timestamp := now |}] in
          ({| an_status := 200; an_success := true; an_error := None;
              an_analysis := Some analysisResult |},
           analysisDB)
      end
  end.

End Analysis.

(** ** The whole server: both arrays and the five routes *)

Module App.

Record state : Type :=
  { faceDB : list Server.person; analysisDB : list Analysis.entry }.

(** [let faceDB = []; let analysisDB = [];] *)
Definition init : state := {| faceDB := []; analysisDB := [] |}.

Record data_response : Type :=
  { faceCount : nat;
    analysisCount : nat;
    lastAnalysis : option Analysis.entry }.

(** [GET /api/data]; an entry is an object, hence truthy, so [|| null] yields
    [null] only for the [undefined] read at index [-1] of the empty array. *)
Definition data (st : state) : data_response :=
  {| faceCount := List.length (faceDB st);
     analysisCount := List.length (analysisDB st);
     lastAnalysis :=
       match List.length (analysisDB st) with
       | O => None
       | S last => nth_error (analysisDB st) last
       end |}.

Inductive request : Type :=
| PostRegisterFace (body : Server.register_body)
| PostRecognizeFace (body : Server.recognize_body)
| PostUploadPhoto (file : option Uploads.file)
| PostAnalyzeFace (file : option Uploads.file) (seen : Analysis.vision) (now : string)
| GetData.

Inductive response : Type :=
| RegisterFaceResponse (res : Server.register_response)
| RecognizeFaceResponse (res : Server.recognize_response)
| UploadPhotoResponse (res : Uploads.upload_response)
| AnalyzeFaceResponse (res : Analysis.analyze_response)
| DataResponse (res : data_response).

Definition step (r : request) (st : state) : response * state :=
  match r with
  | PostRegisterFace body =>
      let (res, db) := Server.register_face body (faceDB st) in
      (RegisterFaceResponse res, {| faceDB := db; analysisDB := analysisDB st |})
  | PostRecognizeFace body =>
      let (res, db) := Server.recognize_face body (faceDB st) in
      (RecognizeFaceResponse res, {| faceDB := db; analysisDB := analysisDB st |})
  | PostUploadPhoto file =>
      (UploadPhotoResponse (Uploads.upload_photo file), st)
  | PostAnalyzeFace file seen now =>
      let (res, db) := Analysis.analyze_face file seen now (analysisDB st) in
      (AnalyzeFaceResponse res, {| faceDB := faceDB st; analysisDB := db |})
  | GetData => (DataResponse (data st), st)
  end.

(** The answers to the requests, in order, and the state they leave. *)
Fixpoint run (rs : list request) (st : state) : list response * state :=
  match rs with
  | [] => ([], st)
  | r :: rs' =>
      let (res, st') := step r st in
      let (out, st'') := run rs' st' in
      (res :: out, st'')
  end.

(** The requests of a run that go to the two face routes. *)
Fixpoint face_requests (rs : list request) : list Server.request :=
  match rs with
  | [] => []
  | PostRegisterFace body :: rs' => Server.RegisterFace body :: face_requests rs'
  | PostRecognizeFace body :: rs' => Server.RecognizeFace body :: face_requests rs'
  | _ :: rs' => face_requests rs'
  end.

(** A registration answered with [success: true]. *)
Definition registered (res : response) : bool :=
  match res with
  | RegisterFaceResponse r => Server.reg_success r
  | _ => false
  end.

(** The result of an analysis answered with [success: true]. *)
Definition analysed (res : response) : option Analysis.analysisResult :=
  match res with
  | AnalyzeFaceResponse r => if Analysis.an_success r then Analysis.an_analysis r else None
  | _ => None
  end.

(** An analysis answered with [success: true]. *)
Definition analysed_ok (res : response) : bool :=
  match analysed res with
  | Some _ => true
  | None => false
  end.

(** The result of the latest successful analysis among the answers. *)
Fixpoint latest_analysed (out : list response) : option Analysis.analysisResult :=
  match out with
  | [] => None
  | res :: out' =>
      match latest_analysed out' with
      | Some a => Some a
      | None => analysed res
      end
  end.

End App.

(** ** The client components that talk to the face routes *)

Module Json.

(** The values the body of a [register-face] answer holds. *)
Inductive value : Type :=
| JBool (b : bool)
| JNumber (n : nat)
| JString (s : string).

(** [data.key]: [None] is [undefined]. *)
Fixpoint get (data : list (string * value)) (key : string) : option value :=
  match data with
  | [] => None
  | (k, v) :: data' => if (k =? key)%string then Some v else get data' key
  end.

(** The text a template literal puts for [${v}]. *)
Definition interpolate (v : option value) : string :=
  match v with
  | None => "undefined"
  | Some (JBool true) => "true"
  | Some (JBool false) => "false"
  | Some (JNumber n) => NilZero.string_of_uint (Nat.to_uint n)
  | Some (JString s) => s
  end.

Definition field (key : string) (v : option value) : list (string * value) :=
  match v with
  | Some v => [(key, v)]
  | None => []
  end.

(** The body [res.json(...)] sends for a [register-face] answer. *)
Definition of_register_response (res : Server.register_response)
  : list (string * value) :=
  [("success"%string, JBool (Server.reg_success res))]
  ++ field "error" (option_map JString (Server.reg_error res))
  ++ field "message" (option_map JString (Server.reg_message res))
  ++ field "count" (option_map JNumber (Server.reg_count res)).

End Json.

Module FaceCapture.
Import JS.

(** What [captureAndSend] does before it awaits the answer: it shows a
    status and returns, or posts a body to [/api/register-face]. *)
Inductive action : Type :=
| Show (status : string)
| Post (body : Server.register_body).

(** [name] is the text of the input, [video] whether
    [webcamRef.current?.video] is there, [detection] the descriptor of the
    detected face, if any. *)
Definition captureAndSend (name : string) (video : bool) (detection : option (list R))
  : action :=
  if negb (truthy (Some (trim name))) then Show "⚠️ Please enter a name."
  else if negb video then Show "⚠️ Camera not ready."
  else match detection with
       | None => Show "😕 No face detected. Try again."
       | Some descriptor =>
           Post {| Server.reg_name := Some name;
                   Server.reg_descriptor := Some descriptor |}
       end.

(** The status once [fetch] has settled: [None] is a rejected [fetch], which
    an answer with an error status is not. *)
Definition settled (answer : option Server.register_response) : string :=
  match answer with
  | Some res =>
      let data := Json.of_register_response res in
      ("✅ " ++ Json.interpolate (Json.get data "status"))%string
  | None => "❌ Registration failed."%string
  end.

(** The form against a server that is reached and answers. *)
Definition submit (name : string) (video : bool) (detection : option (list R))
  (faceDB : list Server.person) : string * list Server.person :=
  match captureAndSend name video detection with
  | Show status => (status, faceDB)
  | Post body =>
      let (res, faceDB') := Server.register_face body faceDB in
      (settled (Some res), faceDB')
  end.

(** One use of the form: what was typed, whether the camera was there and
    what was detected. *)
Record attempt : Type :=
  { typed : string; camera : bool; detected : option (list R) }.

Definition submit_all (attempts : list attempt) (faceDB : list Server.person)
  : list Server.person :=
  fold_left (fun db a => snd (submit (typed a) (camera a) (detected a) db))
            attempts faceDB.

End FaceCapture.

Module FaceRecognition.

Inductive action : Type :=
| Show (status : string)
| Post (body : Server.recognize_body).

(** [recognizeFace] up to the request: [detection] is the descriptor of
    the detected face, if any. *)
Definition recognizeFace (detection : option (list R)) : action :=
  match detection with
  | None => Show "⚠️ No face detected. Please try again."
  | Some descriptor => Post {| Server.rec_descriptor := Some descriptor |}
  end.

(** [${data.name}] *)
Definition interpolate_name (name : option string) : string :=
  match name with
  | Some s => s
  | None => "undefined"
  end.

(** The status once [fetch] has settled; [None] is a rejected [fetch]. *)
Definition settled (answer : option Server.recognize_response) : string :=
  match answer with
  | Some data =>
      if Server.rec_recognized data
      then ("✅ Attendance Marked for: " ++ interpolate_name (Server.rec_name data))%string
      else "❌ Face not recognized."%string
  | None => "❌ Error during face recognition."%string
  end.

(** The component against a server that is reached and answers. *)
Definition submit (detection : option (list R)) (faceDB : list Server.person)
  : string * list Server.person :=
  match recognizeFace detection with
  | Show status => (status, faceDB)
  | Post body =>
      let (res, faceDB') := Server.recognize_face body faceDB in
      (settled (Some res), faceDB')
  end.

End FaceRecognition.

Module EmotionDetector.
Import JS.

(** [a > b] *)
Definition gt (a b : number) : bool := lt b a.

(** [array.reduce(f)] with no initial value: [None] is the TypeError on an
    empty array. *)
Definition reduce {A : Type} (f : A -> A -> A) (array : list A) : option A :=
  match array with
  | [] => None
  | first :: rest => Some (fold_left f rest first)
  end.

(** [getDominantEmotion]; [expressions] is [Object.entries(expressions)],
    the pairs of the object in the order of its keys. *)
Definition getDominantEmotion (expressions : list (string * number)) : option string :=
  option_map fst
    (reduce (fun a b => if gt (snd a) (snd b) then a else b) expressions).

End EmotionDetector.

(** ** JavaScript numbers as the engine has them: binary64

    The definitions above compute with exact real numbers; the ones below
    compute with the IEEE 754 binary64 numbers of the language, on the
    primitive floats of the kernel: every operation rounds, sums overflow to
    [Infinity] and squares underflow to 0, the literal [0.6] is the nearest
    binary64 number.  Whatever depends on the value a distance has is stated
    on these. *)

Module JS64.
Import PrimFloat.
Local Open Scope float_scope.

(** [Math.pow(x, 2)]: the square of [x], rounded once. *)
Definition Math_pow_2 (x : float) : float := x * x.

(** [Math.sqrt(x)] *)
Definition Math_sqrt (x : float) : float := sqrt x.

(** [a[i]]: [None] is [undefined], the value of a read past the end. *)
Definition at_index (a : list float) (i : nat) : option float := nth_error a i.

(** The conversion an arithmetic operator applies to its operand. *)
Definition ToNumber (v : option float) : float :=
  match v with
  | Some x => x
  | None => nan
  end.

(** [Number.isFinite(x)] *)
Definition isFinite (x : float) : bool := is_finite x.

End JS64.

Module Server64.
Import PrimFloat JS64.
Local Open Scope float_scope.

(** An entry of [faceDB]: [{ name, descriptor }]. *)
Record person : Type := { name : string; descriptor : list float }.

(** [let faceDB = []] *)
Definition faceDB_init : list person := [].

(** [function euclideanDistance(d1, d2)] *)
Definition euclideanDistance (d1 d2 : list float) : float :=
  let sum :=
    fold_left
      (fun sum i =>
         sum + Math_pow_2 (ToNumber (at_index d1 i) - ToNumber (at_index d2 i)))
      (seq 0 (List.length d1))   (* for (let i = 0; i < d1.length; i++) *)
      0 in
  Math_sqrt sum.

(** *** [POST /api/register-face] *)

Record register_body : Type :=
  { reg_name : option string; reg_descriptor : option (list float) }.

Definition register_face (body : register_body) (faceDB : list person)
  : Server.register_response * list person :=
  match reg_name body, reg_descriptor body with
  | Some name, Some descriptor =>
      (* [!descriptor] is false: an array, even an empty one, is truthy *)
      if negb (JS.truthy (Some name)) then                    (* [!name] *)
        ({| Server.reg_status := 400; Server.reg_success := false;
            Server.reg_error := Some "Name and descriptor are required"%string;
            Server.reg_message := None; Server.reg_count := None |}, faceDB)
      else if existsb (fun entry => (entry.(Server64.name) =? name)%string) faceDB then
        (* [faceDB.some(entry => entry.name === name)] *)
        ({| Server.reg_status := 409; Server.reg_success := false;
            Server.reg_error := Some "Name already registered"%string;
            Server.reg_message := None; Server.reg_count := None |}, faceDB)
      else
        (* [faceDB.push({ name, descriptor })] *)
        let faceDB := faceDB ++ [{| name := name; descriptor := descriptor |}] in
        ({| Server.reg_status := 200; Server.reg_success := true;
            Server.reg_error := None;
            Server.reg_message := Some ("Face registered for " ++ name)%string;
            Server.reg_count := Some (List.length faceDB) |}, faceDB)
  | _, _ =>
      (* a missing field is [undefined]: [!name || !descriptor] *)
      ({| Server.reg_status := 400; Server.reg_success := false;
          Server.reg_error := Some "Name and descriptor are required"%string;
          Server.reg_message := None; Server.reg_count := None |}, faceDB)
  end.

(** *** [POST /api/recognize-face] *)

Record recognize_body : Type := { rec_descriptor : option (list float) }.

Record recognize_response : Type :=
  { rec_status : nat;
    rec_recognized : bool;
    rec_error : option string;
    rec_name : option string;
    rec_confidence : option float;
    rec_message : option string }.

(** [bestMatch]: [{ name, distance }], [name] possibly [null]. *)
Record best : Type := { best_name : option string; best_distance : float }.

(** The body of the [forEach] callback. *)
Definition visit (descriptor : list float) (bestMatch : best) (person : person) : best :=
  let distance := euclideanDistance descriptor person.(Server64.descriptor) in
  if (distance <? 0.6) && (distance <? bestMatch.(best_distance))
  then {| best_name := Some person.(name); best_distance := distance |}
  else bestMatch.

(** [bestMatch] after [faceDB.forEach]. *)
Definition scan (descriptor : list float) (faceDB : list person) : best :=
  fold_left (visit descriptor) faceDB
    {| best_name := None; best_distance := infinity |}.

Definition recognize_face (body : recognize_body) (faceDB : list person)
  : recognize_response * list person :=
  match rec_descriptor body with
  | None =>
      (* [!descriptor || !Array.isArray(descriptor)] *)
      ({| rec_status := 400; rec_recognized := false;
          rec_error := Some "Valid descriptor array required"%string;
          rec_name := None; rec_confidence := None; rec_message := None |}, faceDB)
  | Some descriptor =>
      let bestMatch := scan descriptor faceDB in
      if JS.truthy bestMatch.(best_name) then             (* [bestMatch.name ?] *)
        ({| rec_status := 200; rec_recognized := true;
            rec_error := None;
            rec_name := bestMatch.(best_name);
            rec_confidence := Some (1 - bestMatch.(best_distance) / 0.6);
            rec_message := None |}, faceDB)
      else
        ({| rec_status := 200; rec_recognized := false;
            rec_error := None;
            rec_name := None; rec_confidence := None;
            rec_message := Some "No match found"%string |}, faceDB)
  end.

(** *** The server as a transition system over [faceDB] *)

Inductive request : Type :=
| RegisterFace (body : register_body)
| RecognizeFace (body : recognize_body).

Definition handle (r : request) (faceDB : list person) : list person :=
  match r with
  | RegisterFace body => snd (register_face body faceDB)
  | RecognizeFace body => snd (recognize_face body faceDB)
  end.

(** The store after serving the requests in order. *)
Definition serve (rs : list request) (faceDB : list person) : list person :=
  fold_left (fun db r => handle r db) rs faceDB.

End Server64.

(** The two client components against the binary64 server. *)

Module FaceCapture64.
Import JS.

Inductive action : Type :=
| Show (status : string)
| Post (body : Server64.register_body).

(** [captureAndSend] up to the request, as [FaceCapture.captureAndSend]. *)
Definition captureAndSend (name : string) (video : bool)
  (detection : option (list PrimFloat.float)) : action :=
  if negb (truthy (Some (trim name))) then Show "⚠️ Please enter a name."
  else if negb video then Show "⚠️ Camera not ready."
  else match detection with
       | None => Show "😕 No face detected. Try again."
       | Some descriptor =>
           Post {| Server64.reg_name := Some name;
                   Server64.reg_descriptor := Some descriptor |}
       end.

(** The form against a server that is reached and answers. *)
Definition submit (name : string) (video : bool)
  (detection : option (list PrimFloat.float))
  (faceDB : list Server64.person) : string * list Server64.person :=
  match captureAndSend name video detection with
  | Show status => (status, faceDB)
  | Post body =>
      let (res, faceDB') := Server64.register_face body faceDB in
      (FaceCapture.settled (Some res), faceDB')
  end.

End FaceCapture64.

Module FaceRecognition64.

Inductive action : Type :=
| Show (status : string)
| Post (body : Server64.recognize_body).

(** [recognizeFace] up to the request. *)
Definition recognizeFace (detection : option (list PrimFloat.float)) : action :=
  match detection with
  | None => Show "⚠️ No face detected. Please try again."
  | Some descriptor => Post {| Server64.rec_descriptor := Some descriptor |}
  end.

(** The status once [fetch] has settled; [None] is a rejected [fetch]. *)
Definition settled (answer : option Server64.recognize_response) : string :=
  match answer with
  | Some data =>
      if Server64.rec_recognized data
      then ("✅ Attendance Marked for: "
            ++ FaceRecognition.interpolate_name (Server64.rec_name data))%string
      else "❌ Face not recognized."%string
  | None => "❌ Error during face recognition."%string
  end.

(** The component against a server that is reached and answers. *)
Definition submit (detection : option (list PrimFloat.float))
  (faceDB : list Server64.person) : string * list Server64.person :=
  match recognizeFace detection with
  | Show status => (status, faceDB)
  | Post body =>
      let (res, faceDB') := Server64.recognize_face body faceDB in
      (settled (Some res), faceDB')
  end.

End FaceRecognition64.

(** The vocabulary of the specification, on binary64. *)

Module Spec64.
Import PrimFloat.
Local Open Scope float_scope.

(** The default acceptance threshold, as the code has it. *)
Definition threshold : float := 0.6.


(** [sqrt(Σ_i (q_i - r_i)^2)] over all [D] dimensions, every operation in
    binary64 and the sum taken from index 0 upwards. *)
Definition distance (q r : list float) : float :=
  sqrt (fold_left (fun sum i => sum + (nth i q 0 - nth i r 0) * (nth i q 0 - nth i r 0))
          (seq 0 Spec.D) 0).

(** The store invariant that [register] maintains on labels: none is empty. *)
Definition labelled (store : list Server64.person) : Prop :=
  Forall (fun p => Server64.name p <> ""%string) store.

End Spec64.

Module Sample64.
Import PrimFloat Server64.
Local Open Scope float_scope.

(** [[1, 0, 0, ..., 0]] and [[0, 1, 0, ..., 0]]. *)
Definition e1 : list float := 1 :: repeat 0 127.
Definition e2 : list float := 0 :: 1 :: repeat 0 126.
Definition e3 : list float := 0 :: 0 :: 1 :: repeat 0 125.
Definition zeros : list float := repeat 0 128.

Definition alice : person := {| name := "Alice"; descriptor := e1 |}.
Definition bob : person := {| name := "Bob"; descriptor := e2 |}.


(** The same coordinates in two orders: eight times [2^-28], then [0.5], and
    the other way round. *)
Definition small : float := 0x1p-28.
Definition late : list float := repeat small 8 ++ 0.5 :: repeat 0 119.
Definition early : list float := 0.5 :: repeat small 8 ++ repeat 0 119.

Definition huge : list float := 1e200 :: repeat 0 127.
Definition tiny : list float := 1e-200 :: repeat 0 127.

Definition register_alice : request :=
  RegisterFace {| reg_name := Some "Alice"%string; reg_descriptor := Some e1 |}.
Definition register_bob : request :=
  RegisterFace {| reg_name := Some "Bob"%string; reg_descriptor := Some e2 |}.

End Sample64.

(** ** Sample data: the scenario of the specification *)

Module Sample.
Import Server.

(** [[1, 0, 0, ..., 0]] and [[0, 1, 0, ..., 0]]. *)
Definition e1 : list R := 1 :: repeat 0 127.
Definition e2 : list R := 0 :: 1 :: repeat 0 126.
Definition alice : person := {| name := "Alice"; descriptor := e1 |}.
Definition bob : person := {| name := "Bob"; descriptor := e2 |}.
Definition register_alice : request :=
  RegisterFace {| reg_name := Some "Alice"%string; reg_descriptor := Some e1 |}.
Definition register_bob : request :=
  RegisterFace {| reg_name := Some "Bob"%string; reg_descriptor := Some e2 |}.

End Sample.

(** * Properties *)

Import JS Server.

(** ** Numbers *)

Lemma Rltb_true (x y : R) : Rltb x y = true <-> x < y.
Proof. unfold Rltb; destruct (Rlt_dec x y); split; intros; try easy. Qed.

Lemma Rltb_false (x y : R) : Rltb x y = false <-> y <= x.
Proof.
  unfold Rltb; destruct (Rlt_dec x y); split; intros; try easy; lra.
Qed.

Lemma Reqb_false (x y : R) : x <> y -> Reqb x y = false.
Proof. unfold Reqb; destruct (Req_dec_T x y); easy. Qed.

Lemma lt_Num (x y : R) : lt (Num x) (Num y) = true <-> x < y.
Proof. apply Rltb_true. Qed.

(** Whatever is below a real number is below [Infinity]. *)
Lemma lt_Num_Infinity (a : number) (y : R) :
  lt a (Num y) = true -> lt a Infinity = true.
Proof. destruct a; simpl; intros; easy. Qed.

(** [<] on numbers is transitive. *)
Lemma lt_trans (a b c : number) :
  lt a b = true -> lt b c = true -> lt a c = true.
Proof.
  destruct a, b, c; simpl; try easy.
  rewrite !Rltb_true; lra.
Qed.

Lemma div_threshold (d : R) : div (Num d) (Num 0.6) = Num (d / 0.6).
Proof. simpl. rewrite Reqb_false by lra. reflexivity. Qed.

Lemma add_NaN_r (a : number) : add a NaN = NaN.
Proof. destruct a; reflexivity. Qed.

(** ** The loop of [euclideanDistance] *)

Section Distance.
Import Loop.

Let body (d1 d2 : list R) : number -> nat -> number :=
  fun sum i =>
    add sum (Math_pow (sub (ToNumber (at_index d1 i)) (ToNumber (at_index d2 i))) 2).

Lemma loop_sum_from (d1 d2 done1 rest1 : list R) (sum : number) :
  d1 = done1 ++ rest1 ->
  fold_left (body d1 d2) (seq (List.length done1) (List.length rest1)) sum
  = sum_from sum rest1 (skipn (List.length done1) d2).
Proof.
  revert done1 sum.
  induction rest1 as [|x rest1 IH]; intros done1 sum E; [reflexivity|].
  cbn [List.length seq fold_left sum_from].
  specialize (IH (done1 ++ [x]) (body d1 d2 sum (List.length done1))).
  rewrite length_app, Nat.add_1_r in IH.
  rewrite IH by (rewrite <- app_assoc; exact E).
  f_equal.
  - unfold body, at_index. subst d1.
    rewrite nth_error_app2, Nat.sub_diag by lia. cbn [nth_error ToNumber].
    do 3 f_equal.
    rewrite <- (Nat.add_0_r (List.length done1)) at 1.
    rewrite <- nth_error_skipn.
    destruct (skipn (List.length done1) d2); reflexivity.
  - clear. revert d2. generalize (List.length done1) as k.
    induction k; intros [|y d2]; try reflexivity. cbn [skipn]. now rewrite <- IHk.
Qed.

Lemma euclideanDistance_sum_from (d1 d2 : list R) :
  euclideanDistance d1 d2 = Math_sqrt (sum_from (Num 0) d1 d2).
Proof.
  unfold euclideanDistance. f_equal.
  exact (loop_sum_from d1 d2 [] d1 (Num 0) eq_refl).
Qed.

End Distance.

Section SumFrom.
Import Loop.

Lemma sqdiff_nonneg (d1 d2 : list R) : 0 <= sqdiff d1 d2.
Proof.
  revert d2; induction d1 as [|x d1 IH]; intros [|y d2]; cbn [sqdiff]; try lra.
  specialize (IH d2). pose proof (pow2_ge_0 (x - y)). lra.
Qed.

(** While the second array has an element for every index, [sum] is a real. *)
Lemma sum_from_within (d1 d2 : list R) (a : R) :
  (List.length d1 <= List.length d2)%nat ->
  sum_from (Num a) d1 d2 = Num (a + sqdiff d1 d2).
Proof.
  revert d2 a; induction d1 as [|x d1 IH]; intros d2 a L.
  - simpl. f_equal; lra.
  - destruct d2 as [|y d2]; simpl in L; [lia|].
    cbn [sum_from hd_error tl ToNumber sub Math_pow add sqdiff].
    rewrite IH by lia. f_equal; lra.
Qed.

Lemma sum_from_NaN (d1 d2 : list R) : sum_from NaN d1 d2 = NaN.
Proof. revert d2; induction d1; intros; simpl; auto. Qed.

(** A read past the end of the second array turns [sum] into [NaN]. *)
Lemma sum_from_beyond (d1 d2 : list R) (sum : number) :
  (List.length d2 < List.length d1)%nat -> sum_from sum d1 d2 = NaN.
Proof.
  revert d2 sum; induction d1 as [|x d1 IH]; intros d2 sum L; simpl in L; [lia|].
  destruct d2 as [|y d2]; cbn [sum_from hd_error tl ToNumber].
  - cbn [sub Math_pow]. rewrite add_NaN_r. apply sum_from_NaN.
  - apply IH. simpl in L. lia.
Qed.

(** Only the first [d1.length] elements of the second array are read. *)
Lemma sum_from_firstn (d1 d2 : list R) (sum : number) :
  sum_from sum d1 d2 = sum_from sum d1 (firstn (List.length d1) d2).
Proof.
  revert d2 sum; induction d1 as [|x d1 IH]; intros d2 sum; [reflexivity|].
  destruct d2 as [|y d2]; cbn [sum_from List.length firstn hd_error tl].
  - rewrite (IH [] _). now rewrite firstn_nil.
  - apply IH.
Qed.

Lemma euclideanDistance_within (d1 d2 : list R) :
  (List.length d1 <= List.length d2)%nat ->
  euclideanDistance d1 d2 = Num (sqrt (sqdiff d1 d2)).
Proof.
  intros L. rewrite euclideanDistance_sum_from, sum_from_within by exact L.
  simpl. replace (Rltb _ 0) with false.
  - do 2 f_equal; lra.
  - symmetry. apply Rltb_false. pose proof (sqdiff_nonneg d1 d2). lra.
Qed.

Lemma euclideanDistance_beyond (d1 d2 : list R) :
  (List.length d2 < List.length d1)%nat -> euclideanDistance d1 d2 = NaN.
Proof.
  intros L. now rewrite euclideanDistance_sum_from, sum_from_beyond.
Qed.

Lemma euclideanDistance_firstn (d1 d2 : list R) :
  euclideanDistance d1 d2 = euclideanDistance d1 (firstn (List.length d1) d2).
Proof. now rewrite !euclideanDistance_sum_from, sum_from_firstn. Qed.

(** A distance is a non-negative real or [NaN]. *)
Lemma euclideanDistance_range (d1 d2 : list R) :
  (exists r, euclideanDistance d1 d2 = Num r /\ 0 <= r)
  \/ euclideanDistance d1 d2 = NaN.
Proof.
  destruct (le_lt_dec (List.length d1) (List.length d2)) as [L|L].
  - left. rewrite euclideanDistance_within by exact L.
    eexists; split; [reflexivity | apply sqrt_pos].
  - right. now apply euclideanDistance_beyond.
Qed.

Lemma sqdiff_self (d : list R) : sqdiff d d = 0.
Proof. induction d as [|x d IH]; simpl; [reflexivity|]. rewrite IH. lra. Qed.

Lemma euclideanDistance_self (d : list R) : euclideanDistance d d = Num 0.
Proof.
  rewrite euclideanDistance_within by lia. now rewrite sqdiff_self, sqrt_0.
Qed.

End SumFrom.

(** ** The scan of [recognize-face] *)

Section Scan.
Variable q : list R.

Let dist (p : person) : number := euclideanDistance q (descriptor p).
Let hit (p : person) : best := {| best_name := Some (name p); best_distance := dist p |}.

Lemma lt_irrefl (a : number) : lt a a = false.
Proof. destruct a; simpl; auto. apply Rltb_false; lra. Qed.

Lemma visit_cases (b : best) (p : person) :
  (visit q b p = b
   /\ (lt (dist p) (Num 0.6) = false \/ lt (dist p) (best_distance b) = false))
  \/ (visit q b p = hit p
      /\ lt (dist p) (Num 0.6) = true /\ lt (dist p) (best_distance b) = true).
Proof.
  unfold visit. fold (dist p).
  destruct (lt (dist p) (Num 0.6)), (lt (dist p) (best_distance b)); simpl; auto.
Qed.

(** The final [bestMatch] is the initial one or an accepted record that beat it. *)
Lemma scan_cases (db : list person) (b : best) :
  fold_left (visit q) db b = b
  \/ exists p, In p db /\ fold_left (visit q) db b = hit p
               /\ lt (dist p) (Num 0.6) = true
               /\ lt (dist p) (best_distance b) = true.
Proof.
  revert b; induction db as [|a db IH]; intros b; [now left|].
  cbn [fold_left].
  destruct (visit_cases b a) as [[E _]|[E [H1 H2]]]; rewrite E.
  - destruct (IH b) as [H|[p [Hin H]]]; [now left|].
    right; exists p; split; [now right | exact H].
  - destruct (IH (hit a)) as [H|[p [Hin [H [H3 H4]]]]].
    + right; exists a; repeat split; auto. now left.
    + right; exists p; repeat split; auto; [now right|].
      eapply lt_trans; [exact H4 | exact H2].
Qed.

(** The best distance never increases along the scan. *)
Lemma scan_decreasing (db : list person) (b : best) (x : number) :
  lt x (best_distance (fold_left (visit q) db b)) = true ->
  lt x (best_distance b) = true.
Proof.
  destruct (scan_cases db b) as [E|[p [_ [E [_ H]]]]]; rewrite E; [auto|].
  intros H'. eapply lt_trans; [exact H' | exact H].
Qed.

(** No accepted record is strictly closer than the final best distance. *)
Lemma scan_lower_bound (db : list person) (b : best) (p : person) :
  In p db -> lt (dist p) (Num 0.6) = true ->
  lt (dist p) (best_distance (fold_left (visit q) db b)) = false.
Proof.
  revert b; induction db as [|a db IH]; intros b Hin Hp; [destruct Hin|].
  destruct Hin as [<-|Hin]; cbn [fold_left].
  - destruct (lt (dist a) (best_distance (fold_left (visit q) db (visit q b a))))
      eqn:E; [|reflexivity].
    apply scan_decreasing in E.
    destruct (visit_cases b a) as [[Ev [H|H]]|[Ev _]]; rewrite Ev in E.
    + congruence.
    + congruence.
    + cbn in E. now rewrite lt_irrefl in E.
  - now apply IH.
Qed.

(** A record that no later record beats stays the best match. *)
Lemma scan_stable (db : list person) (b : best) :
  (forall p, In p db -> lt (dist p) (best_distance b) = false) ->
  fold_left (visit q) db b = b.
Proof.
  revert b; induction db as [|a db IH]; intros b H; [reflexivity|].
  cbn [fold_left].
  destruct (visit_cases b a) as [[E _]|[_ [_ E]]].
  - rewrite E. apply IH. intros p Hp; apply H; now right.
  - rewrite H in E by now left. discriminate.
Qed.

End Scan.

(** ** The store under [register-face] *)

Lemma truthy_Some (s : string) : truthy (Some s) = true <-> s <> ""%string.
Proof.
  simpl. rewrite negb_true_iff. apply String.eqb_neq.
Qed.

Lemma some_name (label : string) (db : list person) :
  existsb (fun entry => (name entry =? label)%string) db = true
  <-> In label (map name db).
Proof.
  rewrite existsb_exists, in_map_iff.
  split; intros [p [H1 H2]]; exists p.
  - apply String.eqb_eq in H2. auto.
  - split; [exact H2 | now apply String.eqb_eq].
Qed.

Lemma register_face_new (label : string) (e : list R) (db : list person) :
  label <> ""%string -> ~ In label (map name db) ->
  register_face {| reg_name := Some label; reg_descriptor := Some e |} db
  = ({| reg_status := 200; reg_success := true; reg_error := None;
        reg_message := Some ("Face registered for " ++ label)%string;
        reg_count := Some (S (List.length db)) |},
     db ++ [{| name := label; descriptor := e |}]).
Proof.
  intros Hl Hn. unfold register_face. cbn [reg_name reg_descriptor].
  apply truthy_Some in Hl. rewrite Hl. cbn [negb].
  destruct (existsb _ db) eqn:E; [now apply some_name in E|].
  rewrite length_app, Nat.add_1_r. reflexivity.
Qed.

Lemma register_face_known (label : string) (e : list R) (db : list person) :
  label <> ""%string -> In label (map name db) ->
  register_face {| reg_name := Some label; reg_descriptor := Some e |} db
  = ({| reg_status := 409; reg_success := false;
        reg_error := Some "Name already registered"%string;
        reg_message := None; reg_count := None |}, db).
Proof.
  intros Hl Hn. unfold register_face. cbn [reg_name reg_descriptor].
  apply truthy_Some in Hl. rewrite Hl. cbn [negb].
  apply some_name in Hn. now rewrite Hn.
Qed.

(** A call leaves the store as it was or appends one record with a new,
    non-empty name. *)
Lemma register_face_store (body : register_body) (db : list person) :
  snd (register_face body db) = db
  \/ exists label e,
       label <> ""%string /\ ~ In label (map name db)
       /\ snd (register_face body db) = db ++ [{| name := label; descriptor := e |}].
Proof.
  destruct body as [[label|] [e|]]; try (now left).
  destruct (string_dec label "") as [->|Hl]; [now left|].
  destruct (in_dec string_dec label (map name db)) as [Hin|Hn].
  - left. now rewrite register_face_known.
  - right. exists label, e. now rewrite register_face_new.
Qed.

Lemma recognize_face_store (body : recognize_body) (db : list person) :
  snd (recognize_face body db) = db.
Proof.
  unfold recognize_face. destruct (rec_descriptor body); [|reflexivity].
  now destruct (truthy _).
Qed.

Lemma handle_invariant (r : request) (db : list person) :
  Spec.labelled db /\ NoDup (map name db) ->
  Spec.labelled (handle r db) /\ NoDup (map name (handle r db)).
Proof.
  intros [HL HN]. destruct r as [body|body]; cbn [handle].
  - destruct (register_face_store body db) as [->|[label [e [Hl [Hn ->]]]]];
      [now split|].
    split.
    + apply Forall_app; split; [exact HL|]. now repeat constructor.
    + rewrite map_app. cbn [map name].
      apply NoDup_app; [exact HN | repeat constructor; intros [] | ].
      intros x Hx [<-|[]]. now apply Hn.
  - now rewrite recognize_face_store.
Qed.

Lemma serve_invariant (rs : list request) (db : list person) :
  Spec.labelled db /\ NoDup (map name db) ->
  Spec.labelled (serve rs db) /\ NoDup (map name (serve rs db)).
Proof.
  revert db; induction rs as [|r rs IH]; intros db H; [exact H|].
  cbn [serve fold_left]. apply IH. now apply handle_invariant.
Qed.

Lemma serve_init_invariant (rs : list request) :
  Spec.labelled (serve rs faceDB_init)
  /\ NoDup (map name (serve rs faceDB_init)).
Proof. apply serve_invariant. split; constructor. Qed.

(** ** What the scan returns *)

Section Best.
Variable q : list R.

Let dist (p : person) : number := euclideanDistance q (descriptor p).
Let hit (p : person) : best := {| best_name := Some (name p); best_distance := dist p |}.

Lemma recognize_face_recognized (db : list person) :
  rec_recognized (fst (recognize_face {| rec_descriptor := Some q |} db))
  = truthy (best_name (scan q db)).
Proof.
  unfold recognize_face. cbn [rec_descriptor].
  now destruct (truthy (best_name (scan q db))).
Qed.

(** An accepted match is a record of the store at a real distance below the
    threshold that no record of the store beats. *)
Lemma scan_accepted (db : list person) :
  truthy (best_name (scan q db)) = true ->
  exists p d,
    In p db /\ scan q db = hit p /\ dist p = Num d /\ 0 <= d < 0.6
    /\ forall p', In p' db -> lt (dist p') (Num d) = false.
Proof.
  intros T. unfold scan in *.
  destruct (scan_cases q db {| best_name := None; best_distance := Infinity |})
    as [E|[p [Hin [E [H1 _]]]]]; [rewrite E in T; discriminate|].
  destruct (euclideanDistance_range q (descriptor p)) as [[d [Ed Hd]]|En];
    fold (dist p) in *; [|rewrite En in H1; discriminate].
  exists p, d. rewrite Ed in H1. apply lt_Num in H1.
  repeat split; auto; try lra.
  intros p' Hin'. destruct (lt (dist p') (Num d)) eqn:L; [|reflexivity].
  assert (A : lt (dist p') (Num 0.6) = true)
    by (eapply lt_trans; [exact L | now apply lt_Num]).
  pose proof (scan_lower_bound q db {| best_name := None; best_distance := Infinity |}
                p' Hin' A) as B.
  rewrite E in B. cbn [best_distance] in B.
  rewrite Ed in B. unfold dist in *. congruence.
Qed.

(** With no empty name in the store, a match is reported exactly when some
    record is below the threshold. *)
Lemma scan_accepts (db : list person) :
  Spec.labelled db ->
  truthy (best_name (scan q db)) = true
  <-> exists p, In p db /\ lt (dist p) (Num 0.6) = true.
Proof.
  intros HL. split.
  - intros T. destruct (scan_accepted db T) as [p [d [Hin [_ [Ed [Hd _]]]]]].
    exists p. split; [exact Hin|]. rewrite Ed. apply lt_Num. lra.
  - intros [p [Hin Hp]]. unfold scan, dist in *.
    pose proof (scan_lower_bound q db {| best_name := None; best_distance := Infinity |}
                  p Hin Hp) as B.
    destruct (scan_cases q db {| best_name := None; best_distance := Infinity |})
      as [E|[p' [Hin' [E _]]]]; rewrite E in *.
    + cbn [best_distance] in B.
      rewrite (lt_Num_Infinity _ _ Hp) in B. discriminate.
    + cbn [best_name]. apply truthy_Some.
      unfold Spec.labelled in HL. rewrite Forall_forall in HL. now apply HL.
Qed.

End Best.

(** * The claims *)

(** ** Validation of the request bodies *)

(** C1 (as amended).  A call to [register-face] or to [recognize-face] whose
    descriptor is missing fails with InvalidInput (status 400) and leaves the
    store as it was, and no call answered with InvalidInput changes the
    store.  A descriptor that is present is not looked at: the answer of
    [register-face] is the same for any two descriptors, and
    [recognize-face] answers with status 200 for every descriptor. *)
Theorem missing_embedding_rejected (label : option string) (db : list person) :
  (Spec.error_of_status
     (reg_status (fst (register_face {| reg_name := label; reg_descriptor := None |} db)))
   = Some Spec.InvalidInput
   /\ snd (register_face {| reg_name := label; reg_descriptor := None |} db) = db)
  /\ (Spec.error_of_status
        (rec_status (fst (recognize_face {| rec_descriptor := None |} db)))
      = Some Spec.InvalidInput
      /\ snd (recognize_face {| rec_descriptor := None |} db) = db)
  /\ (forall body,
        Spec.error_of_status (reg_status (fst (register_face body db)))
        = Some Spec.InvalidInput ->
        snd (register_face body db) = db)
  /\ (forall body, snd (recognize_face body db) = db)
  /\ (forall e e',
        fst (register_face {| reg_name := label; reg_descriptor := Some e |} db)
        = fst (register_face {| reg_name := label; reg_descriptor := Some e' |} db))
  /\ (forall e,
        rec_status (fst (recognize_face {| rec_descriptor := Some e |} db)) = 200%nat).
Proof.
  split; [|split; [|split; [|split; [|split]]]].
  - now destruct label.
  - now split.
  - intros body H.
    destruct (register_face_store body db) as [E|[l [e [Hl [Hn E]]]]]; [exact E|].
    destruct body as [[l'|] [e'|]]; try reflexivity.
    destruct (string_dec l' "") as [->|Hl']; [reflexivity|].
    destruct (in_dec string_dec l' (map name db)) as [Hin|Hn'].
    + now rewrite register_face_known.
    + rewrite register_face_new in H by assumption. discriminate H.
  - intros body. apply recognize_face_store.
  - intros e e'. destruct label as [l|]; [|reflexivity].
    destruct (string_dec l "") as [->|Hl]; [reflexivity|].
    destruct (in_dec string_dec l (map name db)) as [Hin|Hn].
    + now rewrite !register_face_known.
    + now rewrite !register_face_new.
  - intros e. unfold recognize_face. cbn [rec_descriptor]. now destruct (truthy _).
Qed.

Lemma missing_embedding_rejected_witness :
  snd (register_face {| reg_name := Some "Bob"%string; reg_descriptor := None |}
         [Sample.alice])
  = [Sample.alice].
Proof.
  apply (proj1 (proj2 (proj2 (missing_embedding_rejected (Some "Bob"%string)
                                [Sample.alice])))).
  reflexivity.
Defined.

(** C1, refuted as stated: a descriptor of length 1 (not 128) is registered
    with status 200 and enters the store, and the same descriptor is accepted
    by [recognize-face], which answers with status 200 and no match. *)
Lemma dimension_not_checked :
  List.length [1] <> Spec.D
  /\ register_face {| reg_name := Some "Alice"%string; reg_descriptor := Some [1] |}
       faceDB_init
     = ({| reg_status := 200; reg_success := true; reg_error := None;
           reg_message := Some "Face registered for Alice"%string;
           reg_count := Some 1%nat |},
        [{| name := "Alice"; descriptor := [1] |}])
  /\ fst (recognize_face {| rec_descriptor := Some [1] |} faceDB_init)
     = {| rec_status := 200; rec_recognized := false; rec_error := None;
          rec_name := None; rec_confidence := None;
          rec_message := Some "No match found"%string |}.
Proof.
  split; [discriminate|]. split; reflexivity.
Qed.

(** C6, the code at the failing input: the name [" "] is empty after
    trimming, the registration form refuses to send it, and the server
    registers it with status 200. *)
Lemma blank_name_registered :
  Spec.blank " "
  /\ Client.captureAndSend " " Sample.e1 = None
  /\ register_face {| reg_name := Some " "%string; reg_descriptor := Some Sample.e1 |}
       faceDB_init
     = ({| reg_status := 200; reg_success := true; reg_error := None;
           reg_message := Some "Face registered for  "%string;
           reg_count := Some 1%nat |},
        [{| name := " "; descriptor := Sample.e1 |}]).
Proof.
  split; [reflexivity|]. split; reflexivity.
Qed.

(** ** Registration *)

(** C2.  A call to [register-face] with a non-empty name and a descriptor:
    when the name is not in the store, the record is appended at the end and
    the new number of records is returned; when it is (compared exactly), the
    call fails with DuplicateIdentity (status 409) and the store is the same
    list.  Whatever requests the server has served, no two records of the
    store have the same name. *)
Theorem register_unique (db : list person) (label : string) (e : list R) :
  label <> ""%string ->
  (~ In label (map name db) ->
     snd (register_face {| reg_name := Some label; reg_descriptor := Some e |} db)
     = db ++ [{| name := label; descriptor := e |}]
     /\ reg_status (fst (register_face {| reg_name := Some label; reg_descriptor := Some e |} db))
        = 200%nat
     /\ reg_count (fst (register_face {| reg_name := Some label; reg_descriptor := Some e |} db))
        = Some (faceCount db + 1)%nat)
  /\ (In label (map name db) ->
      Spec.error_of_status
        (reg_status (fst (register_face {| reg_name := Some label; reg_descriptor := Some e |} db)))
      = Some Spec.DuplicateIdentity
      /\ snd (register_face {| reg_name := Some label; reg_descriptor := Some e |} db) = db)
  /\ (forall rs : list request, NoDup (map name (serve rs faceDB_init))).
Proof.
  intros Hl. split; [|split].
  - intros Hn. rewrite register_face_new by assumption.
    cbn. unfold faceCount. rewrite Nat.add_1_r. auto.
  - intros Hin. rewrite register_face_known by assumption. auto.
  - intros rs. apply serve_init_invariant.
Qed.

(** C2 at the sample store: Bob is new after Alice, Alice is not. *)
Lemma register_unique_witness :
  (snd (register_face {| reg_name := Some "Bob"%string; reg_descriptor := Some Sample.e2 |}
          [Sample.alice])
   = [Sample.alice; Sample.bob])
  /\ (snd (register_face {| reg_name := Some "Alice"%string; reg_descriptor := Some Sample.e2 |}
             [Sample.alice])
      = [Sample.alice]).
Proof.
  split.
  - refine (proj1 (proj1 (register_unique [Sample.alice] "Bob" Sample.e2 _) _)).
    + discriminate.
    + simpl. intros [H|[]]. discriminate.
  - refine (proj2 (proj1 (proj2 (register_unique [Sample.alice] "Alice" Sample.e2 _)) _)).
    + discriminate.
    + simpl. now left.
Defined.

(** ** Recognition leaves the store alone *)

(** C9.  [recognize-face] returns the store it was given, whatever the body
    (descriptor missing, match or no match); so does any run of such calls. *)
Theorem recognize_face_frame (body : recognize_body) (db : list person) :
  snd (recognize_face body db) = db
  /\ forall bodies, serve (map RecognizeFace bodies) db = db.
Proof.
  split; [apply recognize_face_store|].
  intros bodies; induction bodies as [|b bodies IH]; [reflexivity|].
  cbn [map serve fold_left handle]. rewrite recognize_face_store. exact IH.
Qed.

(** ** The distance *)

(** C10.  The loop runs over the indices of its first argument only.  Two
    second arguments that agree on their first [d1.length] elements give the
    same result; in particular elements of the second argument beyond
    [d1.length] do not contribute.  When the first argument is the longer one
    the loop reads the second past its end, where the read is [undefined],
    and the result is [NaN]. *)
Theorem euclideanDistance_reads_first_length (d1 d2 d2' extra : list R) :
  (firstn (List.length d1) d2 = firstn (List.length d1) d2' ->
   euclideanDistance d1 d2 = euclideanDistance d1 d2')
  /\ ((List.length d1 <= List.length d2)%nat ->
      euclideanDistance d1 (d2 ++ extra) = euclideanDistance d1 d2)
  /\ ((List.length d2 < List.length d1)%nat ->
      at_index d2 (List.length d2) = None /\ euclideanDistance d1 d2 = NaN).
Proof.
  split; [|split].
  - intros E.
    rewrite (euclideanDistance_firstn d1 d2), (euclideanDistance_firstn d1 d2').
    now rewrite E.
  - intros L.
    rewrite (euclideanDistance_firstn d1 (d2 ++ extra)), (euclideanDistance_firstn d1 d2).
    now rewrite firstn_app, (proj2 (Nat.sub_0_le _ _) L), firstn_O, app_nil_r.
  - intros L. split; [|now apply euclideanDistance_beyond].
    unfold at_index. now apply nth_error_None.
Qed.

Lemma euclideanDistance_reads_first_length_witness :
  euclideanDistance [1; 2] [1; 2; 3] = euclideanDistance [1; 2] [1; 2; 4]
  /\ euclideanDistance [1; 2] ([1; 2] ++ [3]) = euclideanDistance [1; 2] [1; 2]
  /\ (at_index [1; 2] 2 = None /\ euclideanDistance [1; 2; 3] [1; 2] = NaN).
Proof.
  split; [|split].
  - apply (proj1 (euclideanDistance_reads_first_length [1; 2] [1; 2; 3] [1; 2; 4] [])).
    reflexivity.
  - apply (proj1 (proj2 (euclideanDistance_reads_first_length [1; 2] [1; 2] [] [3]))).
    simpl; lia.
  - apply (proj2 (proj2 (euclideanDistance_reads_first_length [1; 2; 3] [1; 2] [] []))).
    simpl; lia.
Defined.

(** ** Matching a registered descriptor, ties and the confidence *)

Lemma scan_self (db : list person) (p : person) :
  Spec.labelled db -> In p db ->
  truthy (best_name (scan (descriptor p) db)) = true
  /\ best_distance (scan (descriptor p) db) = Num 0.
Proof.
  intros HL Hin.
  assert (Hp : lt (euclideanDistance (descriptor p) (descriptor p)) (Num 0.6) = true)
    by (rewrite euclideanDistance_self; apply lt_Num; lra).
  assert (T : truthy (best_name (scan (descriptor p) db)) = true)
    by (apply (scan_accepts _ db HL); now exists p).
  split; [exact T|].
  destruct (scan_accepted _ db T) as [p' [d [_ [E [Ed [Hd Hmin]]]]]].
  rewrite E. cbn [best_distance]. rewrite Ed. f_equal.
  specialize (Hmin p Hin). rewrite euclideanDistance_self in Hmin.
  apply Rltb_false in Hmin. lra.
Qed.

Lemma recognize_face_confidence (q : list R) (db : list person) :
  truthy (best_name (scan q db)) = true ->
  rec_confidence (fst (recognize_face {| rec_descriptor := Some q |} db))
  = Some (sub (Num 1) (div (best_distance (scan q db)) (Num 0.6))).
Proof.
  intros T. unfold recognize_face. cbn [rec_descriptor]. now rewrite T.
Qed.






(** * Further properties of the code *)

(** ** The face store over time *)

Lemma serve_app (rs1 rs2 : list request) (db : list person) :
  serve (rs1 ++ rs2) db = serve rs2 (serve rs1 db).
Proof. unfold serve. apply fold_left_app. Qed.

Lemma serve_grows (rs : list request) (db : list person) :
  exists added, serve rs db = db ++ added.
Proof.
  revert db; induction rs as [|r rs IH]; intros db.
  - exists []. now rewrite app_nil_r.
  - cbn [serve fold_left]. fold (serve rs (handle r db)).
    destruct (IH (handle r db)) as [added E]. rewrite E.
    destruct r as [body|body]; cbn [handle].
    + destruct (register_face_store body db) as [->|[label [e [_ [_ ->]]]]].
      * now exists added.
      * exists ({| name := label; descriptor := e |} :: added).
        now rewrite <- app_assoc.
    + rewrite recognize_face_store. now exists added.
Qed.

(** X1.  The store is append-only: whatever requests are served, the records
    already in the store stay at their index with their name and descriptor,
    new records come after them, and the number of records never goes
    down. *)
Theorem store_append_only (rs : list request) (db : list person) :
  (exists added, serve rs db = db ++ added)
  /\ (forall i p, nth_error db i = Some p -> nth_error (serve rs db) i = Some p)
  /\ (faceCount db <= faceCount (serve rs db))%nat.
Proof.
  destruct (serve_grows rs db) as [added E]. rewrite E.
  split; [now exists added|]. split.
  - intros i p H. rewrite nth_error_app1; [exact H|].
    apply nth_error_Some. congruence.
  - unfold faceCount. rewrite length_app. lia.
Qed.

(** X2.  Sending the same registration twice: the second request never
    changes the store; it is refused as a duplicate (409) when the first one
    registered the face, and gets the answer of the first one otherwise. *)
Theorem register_face_twice (body : register_body) (db : list person) :
  snd (register_face body (snd (register_face body db)))
  = snd (register_face body db)
  /\ (reg_status (fst (register_face body db)) = 200%nat ->
      reg_status (fst (register_face body (snd (register_face body db)))) = 409%nat)
  /\ (reg_status (fst (register_face body db)) <> 200%nat ->
      fst (register_face body (snd (register_face body db)))
      = fst (register_face body db)).
Proof.
  assert (Bad : forall db' res,
             register_face body db = (res, db) -> register_face body db' = (res, db') ->
             reg_status res <> 200%nat ->
             snd (register_face body (snd (register_face body db)))
             = snd (register_face body db)
             /\ (reg_status (fst (register_face body db)) = 200%nat ->
                 reg_status (fst (register_face body (snd (register_face body db)))) = 409%nat)
             /\ (reg_status (fst (register_face body db)) <> 200%nat ->
                 fst (register_face body (snd (register_face body db)))
                 = fst (register_face body db))).
  { intros db' res E _ Hs. rewrite E. cbn [fst snd]. rewrite E. cbn [fst snd].
    repeat split; auto. intros H; now elim Hs. }
  destruct body as [[label|] [e|]]; try (eapply (Bad db); [reflexivity .. | discriminate]).
  destruct (string_dec label "") as [->|Hl];
    [eapply (Bad db); [reflexivity .. | discriminate]|].
  destruct (in_dec string_dec label (map name db)) as [Hin|Hn].
  - eapply (Bad db); [now apply register_face_known .. | discriminate].
  - clear Bad. rewrite (register_face_new label e db Hl Hn). cbn [fst snd reg_status].
    assert (Hin : In label (map name (db ++ [{| name := label; descriptor := e |}])))
      by (rewrite map_app; apply in_or_app; right; now left).
    rewrite (register_face_known label e _ Hl Hin). cbn [fst snd reg_status].
    repeat split; auto. intros H; now elim H.
Qed.

Lemma register_face_twice_witness :
  reg_status
    (fst (register_face {| reg_name := Some "Bob"%string; reg_descriptor := Some Sample.e2 |}
            (snd (register_face
                    {| reg_name := Some "Bob"%string; reg_descriptor := Some Sample.e2 |}
                    [Sample.alice]))))
  = 409%nat.
Proof.
  apply (proj1 (proj2 (register_face_twice
                         {| reg_name := Some "Bob"%string; reg_descriptor := Some Sample.e2 |}
                         [Sample.alice]))).
  reflexivity.
Defined.

(** ** Recognition against the store *)






(** X6.  A query longer than every registered descriptor is never matched:
    each comparison reads a stored descriptor past its end, every distance is
    [NaN], and the answer is "No match found". *)
Theorem long_query_unmatched (q : list R) (db : list person) :
  (forall p, In p db -> (List.length (descriptor p) < List.length q)%nat) ->
  fst (recognize_face {| rec_descriptor := Some q |} db)
  = {| rec_status := 200; rec_recognized := false; rec_error := None;
       rec_name := None; rec_confidence := None;
       rec_message := Some "No match found"%string |}.
Proof.
  intros H. unfold recognize_face, scan. cbn [rec_descriptor].
  rewrite scan_stable; [reflexivity|].
  intros p Hin. now rewrite euclideanDistance_beyond by auto.
Qed.

Lemma long_query_unmatched_witness :
  rec_recognized
    (fst (recognize_face {| rec_descriptor := Some (Sample.e1 ++ [0]) |}
            [Sample.alice; Sample.bob])) = false.
Proof.
  rewrite (long_query_unmatched (Sample.e1 ++ [0]) [Sample.alice; Sample.bob]).
  - reflexivity.
  - intros p [<-|[<-|[]]]; simpl; lia.
Defined.

(** X7.  A match is never lost: if a query is recognized against the store
    the server has reached, it is still recognized after any further
    requests, and its confidence has not gone down. *)
Theorem match_persists (before after : list request) (q : list R) :
  rec_recognized
    (fst (recognize_face {| rec_descriptor := Some q |} (serve before faceDB_init)))
  = true ->
  rec_recognized
    (fst (recognize_face {| rec_descriptor := Some q |}
            (serve (before ++ after) faceDB_init)))
  = true
  /\ exists c c',
       rec_confidence
         (fst (recognize_face {| rec_descriptor := Some q |} (serve before faceDB_init)))
       = Some (Num c)
       /\ rec_confidence
            (fst (recognize_face {| rec_descriptor := Some q |}
                    (serve (before ++ after) faceDB_init)))
          = Some (Num c')
       /\ c <= c'.
Proof.
  rewrite !recognize_face_recognized. intros T.
  destruct (scan_accepted q _ T) as [p [d [Hin [E [Ed [Hd _]]]]]].
  rewrite (recognize_face_confidence q _ T), E. cbn [best_distance].
  rewrite Ed, div_threshold. cbn [sub].
  rewrite serve_app.
  destruct (serve_grows after (serve before faceDB_init)) as [added G].
  pose proof (proj1 (serve_init_invariant (before ++ after))) as HL.
  rewrite serve_app, G in HL. rewrite G.
  assert (S : scan q (serve before faceDB_init ++ added)
              = fold_left (visit q) added (scan q (serve before faceDB_init)))
    by (unfold scan; apply fold_left_app).
  destruct (scan_cases q added (scan q (serve before faceDB_init)))
    as [K | [p' [Hin' [K [H1 H2]]]]]; rewrite <- S in K.
  - assert (T' : truthy (best_name (scan q (serve before faceDB_init ++ added))) = true)
      by (now rewrite K).
    split; [exact T'|].
    rewrite (recognize_face_confidence q _ T'), K, E. cbn [best_distance].
    rewrite Ed, div_threshold. cbn [sub].
    exists (1 - d / 0.6), (1 - d / 0.6). repeat split; lra.
  - assert (T' : truthy (best_name (scan q (serve before faceDB_init ++ added))) = true).
    { rewrite K. cbn [best_name]. apply truthy_Some.
      unfold Spec.labelled in HL. rewrite Forall_forall in HL.
      apply HL. apply in_or_app. now right. }
    split; [exact T'|].
    rewrite (recognize_face_confidence q _ T'), K. cbn [best_distance].
    rewrite E in H2. cbn [best_distance] in H2. rewrite Ed in H2.
    destruct (euclideanDistance_range q (descriptor p')) as [[r [Er Hr]] | En];
      rewrite ?Er, ?En in *; [|discriminate].
    apply lt_Num in H2. rewrite div_threshold. cbn [sub].
    exists (1 - d / 0.6), (1 - r / 0.6). repeat split; lra.
Qed.

Lemma match_persists_witness :
  rec_recognized
    (fst (recognize_face {| rec_descriptor := Some Sample.e1 |}
            (serve ([Sample.register_alice] ++ [Sample.register_bob]) faceDB_init)))
  = true.
Proof.
  apply (match_persists [Sample.register_alice] [Sample.register_bob] Sample.e1).
  rewrite recognize_face_recognized.
  apply (scan_self [Sample.alice] Sample.alice).
  - repeat constructor; discriminate.
  - now left.
Defined.

(** ** Uploads, analysis and statistics *)

Section Rounding.
Import Analysis.

Lemma Math_floor_bounds (x : R) : Math_floor x <= x < Math_floor x + 1.
Proof. unfold Math_floor. pose proof (base_Int_part x). lra. Qed.

(** Below [10^21] the rounded value is a whole number of hundredths, at most
    half a hundredth away. *)
Lemma toFixed2_magnitude_near (x : R) :
  0 <= x < 1e21 ->
  exists n : Z,
    (0 <= n)%Z /\ toFixed2_magnitude x = IZR n / 100
    /\ x - / 200 < toFixed2_magnitude x <= x + / 200.
Proof.
  intros Hx. unfold toFixed2_magnitude.
  rewrite (proj2 (Rltb_true x 1e21)) by lra.
  pose proof (base_Int_part (x * 100 + / 2)) as [B1 B2].
  exists (Int_part (x * 100 + / 2)). split; [|split; [reflexivity | lra]].
  apply Z.lt_succ_r, lt_IZR. rewrite succ_IZR. lra.
Qed.

End Rounding.

(** X8.  What a successful analysis reports for the first detected face: the
    age is the whole number just below or at the detected age; for a gender
    probability between 0 and 1 the confidence is a whole number of
    hundredths between 0 and 1, within 0.005 of the probability. *)
Theorem analysis_rounding
  (f : Uploads.file) (first : Analysis.detection) (others : list Analysis.detection)
  (now : string) (db : list Analysis.entry) :
  exists a,
    Analysis.an_analysis
      (fst (Analysis.analyze_face (Some f) (Analysis.Detections (first :: others)) now db))
    = Some a
    /\ Analysis.res_gender a = Analysis.gender first
    /\ (exists n : Z, Analysis.res_age a = IZR n)
    /\ Analysis.res_age a <= Analysis.age first < Analysis.res_age a + 1
    /\ (0 <= Analysis.genderProbability first <= 1 ->
        (exists n : Z, (0 <= n <= 100)%Z /\ Analysis.res_confidence a = IZR n / 100)
        /\ 0 <= Analysis.res_confidence a <= 1
        /\ Rabs (Analysis.res_confidence a - Analysis.genderProbability first) <= / 200).
Proof.
  eexists. split; [reflexivity|]. cbn [Analysis.res_gender Analysis.res_age
                                         Analysis.res_confidence].
  split; [reflexivity|]. split; [eexists; reflexivity|].
  split; [apply Math_floor_bounds|].
  intros Hp. unfold Analysis.toFixed2.
  rewrite (proj2 (Rltb_false _ 0)) by lra.
  destruct (toFixed2_magnitude_near (Analysis.genderProbability first))
    as [n [Hn [E [L U]]]]; [lra|].
  assert (Hn' : (n <= 100)%Z).
  { apply Z.lt_succ_r, lt_IZR. rewrite succ_IZR. rewrite E in U. lra. }
  assert (0 <= IZR n) by (now apply IZR_le).
  assert (IZR n <= 100) by (now apply IZR_le).
  split; [exists n; split; [lia | exact E]|].
  split; [rewrite E; lra|].
  apply Rabs_le. lra.
Qed.

Lemma analysis_rounding_witness :
  exists a,
    Analysis.an_analysis
      (fst (Analysis.analyze_face
              (Some {| Uploads.filename := "f"; Uploads.originalname := "face.png";
                       Uploads.path := "uploads/f"; Uploads.mimetype := "image/png" |})
              (Analysis.Detections
                 [{| Analysis.age := 31.7; Analysis.gender := "female";
                     Analysis.genderProbability := 0.987 |}])
              "2024-01-01T00:00:00.000Z" []))
    = Some a
    /\ 0 <= Analysis.res_confidence a <= 1.
Proof.
  destruct (analysis_rounding
              {| Uploads.filename := "f"; Uploads.originalname := "face.png";
                 Uploads.path := "uploads/f"; Uploads.mimetype := "image/png" |}
              {| Analysis.age := 31.7; Analysis.gender := "female";
                 Analysis.genderProbability := 0.987 |}
              [] "2024-01-01T00:00:00.000Z" [])
    as [a [E [_ [_ [_ H]]]]].
  exists a. split; [exact E|].
  apply H. cbn [Analysis.genderProbability]. lra.
Defined.

Lemma register_face_effect (body : register_body) (db : list person) :
  (reg_success (fst (register_face body db)) = false
   /\ snd (register_face body db) = db)
  \/ (reg_success (fst (register_face body db)) = true
      /\ exists p, snd (register_face body db) = db ++ [p]).
Proof.
  destruct body as [[label|] [e|]]; try (left; split; reflexivity).
  destruct (string_dec label "") as [->|Hl]; [left; split; reflexivity|].
  destruct (in_dec string_dec label (map name db)) as [Hin|Hn].
  - left. now rewrite register_face_known.
  - right. rewrite register_face_new by assumption. split; [reflexivity|].
    now eexists.
Qed.

Lemma analyze_face_effect
  (file : option Uploads.file) (seen : Analysis.vision) (now : string)
  (db : list Analysis.entry) :
  (App.analysed (App.AnalyzeFaceResponse (fst (Analysis.analyze_face file seen now db)))
   = None
   /\ snd (Analysis.analyze_face file seen now db) = db)
  \/ (exists a,
        App.analysed (App.AnalyzeFaceResponse (fst (Analysis.analyze_face file seen now db)))
        = Some a
        /\ snd (Analysis.analyze_face file seen now db)
           = db ++ [{| Analysis.result := a; Analysis.timestamp := now |}]).
Proof.
  destruct file as [f|]; [|left; split; reflexivity].
  destruct seen as [|[|first others]]; try (left; split; reflexivity).
  right. eexists. split; reflexivity.
Qed.

Lemma run_cons (r : App.request) (rs : list App.request) (st : App.state) :
  App.run (r :: rs) st
  = (fst (App.step r st) :: fst (App.run rs (snd (App.step r st))),
     snd (App.run rs (snd (App.step r st)))).
Proof.
  cbn [App.run]. destruct (App.step r st) as [res st'].
  cbn [fst snd]. now destruct (App.run rs st').
Qed.

(** X9.  The two counts of [GET /api/data] are tallies of successes: after
    any requests, [faceCount] has grown by the number of registrations
    answered with success and [analysisCount] by the number of analyses
    answered with success; uploads, recognitions, failed requests and reads
    of the statistics change neither. *)
Theorem data_counts (rs : list App.request) (st : App.state) :
  App.faceCount (App.data (snd (App.run rs st)))
  = (App.faceCount (App.data st)
     + List.length (filter App.registered (fst (App.run rs st))))%nat
  /\ App.analysisCount (App.data (snd (App.run rs st)))
     = (App.analysisCount (App.data st)
        + List.length (filter App.analysed_ok (fst (App.run rs st))))%nat.
Proof.
  revert st; induction rs as [|r rs IH]; intros st.
  - cbn. split; lia.
  - rewrite run_cons. cbn [fst snd filter].
    destruct (IH (snd (App.step r st))) as [IHf IHa]. rewrite IHf, IHa. clear IH IHf IHa.
    destruct r as [body|body|file|file seen now|]; cbn [App.step].
    + destruct (register_face body (App.faceDB st)) as [res db] eqn:E.
      pose proof (register_face_effect body (App.faceDB st)) as H. rewrite E in H.
      cbn [fst snd] in *. cbn [App.registered App.analysed App.analysed_ok App.data
                                App.faceCount App.analysisCount App.faceDB App.analysisDB].
      destruct H as [[-> ->]|[-> [p ->]]]; cbn [List.length];
        rewrite ?length_app; cbn [List.length]; split; lia.
    + destruct (recognize_face body (App.faceDB st)) as [res db] eqn:E.
      pose proof (recognize_face_store body (App.faceDB st)) as H. rewrite E in H.
      cbn [fst snd] in *. subst db. cbn. split; lia.
    + cbn. split; lia.
    + destruct (Analysis.analyze_face file seen now (App.analysisDB st)) as [res db] eqn:E.
      pose proof (analyze_face_effect file seen now (App.analysisDB st)) as H.
      rewrite E in H. cbn [fst snd] in *.
      unfold App.analysed_ok.
      cbn [App.registered App.data App.faceCount App.analysisCount
             App.faceDB App.analysisDB].
      destruct H as [[-> ->]|[a [-> ->]]]; cbn [List.length];
        rewrite ?length_app; cbn [List.length]; split; lia.
    + cbn. split; lia.
Qed.

Lemma lastAnalysis_push (faces : list person) (db : list Analysis.entry) (e : Analysis.entry) :
  App.lastAnalysis (App.data {| App.faceDB := faces; App.analysisDB := db ++ [e] |})
  = Some e.
Proof.
  cbn [App.data App.lastAnalysis App.analysisDB].
  rewrite length_app, Nat.add_1_r, nth_error_app2, Nat.sub_diag by lia.
  reflexivity.
Qed.

Lemma step_lastAnalysis (r : App.request) (st : App.state) :
  option_map Analysis.result (App.lastAnalysis (App.data (snd (App.step r st))))
  = match App.analysed (fst (App.step r st)) with
    | Some a => Some a
    | None => option_map Analysis.result (App.lastAnalysis (App.data st))
    end.
Proof.
  destruct st as [faces db].
  destruct r as [body|body|file|file seen now|]; cbn [App.step App.faceDB App.analysisDB].
  - now destruct (register_face body faces).
  - now destruct (recognize_face body faces).
  - reflexivity.
  - destruct (Analysis.analyze_face file seen now db) as [res db'] eqn:E.
    pose proof (analyze_face_effect file seen now db) as H. rewrite E in H.
    cbn [fst snd] in *.
    destruct H as [[-> ->]|[a [-> ->]]]; [reflexivity|].
    now rewrite lastAnalysis_push.
  - reflexivity.
Qed.

(** X10.  [lastAnalysis] of [GET /api/data] is the result of the most recent
    analysis that was answered with success, whatever other requests came in
    between; it stays what it was while no analysis succeeds, so from the
    start it is [null] exactly until the first success. *)
Theorem data_lastAnalysis (rs : list App.request) (st : App.state) :
  option_map Analysis.result (App.lastAnalysis (App.data (snd (App.run rs st))))
  = match App.latest_analysed (fst (App.run rs st)) with
    | Some a => Some a
    | None => option_map Analysis.result (App.lastAnalysis (App.data st))
    end
  /\ (App.lastAnalysis (App.data (snd (App.run rs App.init))) = None
      <-> App.latest_analysed (fst (App.run rs App.init)) = None).
Proof.
  assert (G : forall rs st,
             option_map Analysis.result (App.lastAnalysis (App.data (snd (App.run rs st))))
             = match App.latest_analysed (fst (App.run rs st)) with
               | Some a => Some a
               | None => option_map Analysis.result (App.lastAnalysis (App.data st))
               end).
  { clear. induction rs as [|r rs IH]; intros st; [reflexivity|].
    rewrite run_cons. cbn [fst snd App.latest_analysed]. rewrite IH.
    destruct (App.latest_analysed _); [reflexivity|]. apply step_lastAnalysis. }
  split; [apply G|].
  specialize (G rs App.init).
  change (option_map Analysis.result (App.lastAnalysis (App.data App.init)))
    with (@None Analysis.analysisResult) in G.
  destruct (App.latest_analysed _), (App.lastAnalysis (App.data (snd _)));
    cbn [option_map] in G; split; intros; congruence.
Qed.

(** X11.  The two arrays are independent: after any mix of requests
    [faceDB] is what the register and recognize requests alone would have
    left, and a run without analysis requests leaves [analysisDB] as it
    was. *)
Theorem stores_independent (rs : list App.request) (st : App.state) :
  App.faceDB (snd (App.run rs st)) = serve (App.face_requests rs) (App.faceDB st)
  /\ (Forall (fun r => match r with App.PostAnalyzeFace _ _ _ => False | _ => True end) rs ->
      App.analysisDB (snd (App.run rs st)) = App.analysisDB st).
Proof.
  revert st; induction rs as [|r rs IH]; intros st; [now split|].
  rewrite run_cons. cbn [snd]. destruct (IH (snd (App.step r st))) as [IHf IHa].
  rewrite IHf. split.
  - destruct r as [body|body|file|file seen now|]; cbn [App.step App.face_requests].
    + destruct (register_face body (App.faceDB st)) eqn:E.
      cbn [snd App.faceDB serve fold_left handle]. now rewrite E.
    + destruct (recognize_face body (App.faceDB st)) eqn:E.
      cbn [snd App.faceDB serve fold_left handle]. now rewrite E.
    + reflexivity.
    + now destruct (Analysis.analyze_face file seen now (App.analysisDB st)).
    + reflexivity.
  - intros F. inversion F as [|r' rs' Hr Hrs]; subst. rewrite (IHa Hrs).
    destruct r as [body|body|file|file seen now|]; cbn [App.step]; try reflexivity.
    + now destruct (register_face body (App.faceDB st)).
    + now destruct (recognize_face body (App.faceDB st)).
    + contradiction.
Qed.

Lemma stores_independent_witness :
  App.analysisDB
    (snd (App.run [App.PostRegisterFace
                     {| reg_name := Some "Alice"%string; reg_descriptor := Some Sample.e1 |};
                   App.GetData] App.init))
  = App.analysisDB App.init.
Proof.
  apply (proj2 (stores_independent
                  [App.PostRegisterFace
                     {| reg_name := Some "Alice"%string; reg_descriptor := Some Sample.e1 |};
                   App.GetData] App.init)).
  repeat constructor.
Defined.

(** ** The registration form and the attendance component *)

Lemma not_blank (label : string) :
  ~ Spec.blank label <-> truthy (Some (trim label)) = true.
Proof. unfold Spec.blank. symmetry. apply truthy_Some. Qed.

Lemma not_blank_not_empty (label : string) : ~ Spec.blank label -> label <> ""%string.
Proof. intros H ->. apply H. reflexivity. Qed.

Lemma captureAndSend_posts (label : string) (d : list R) :
  ~ Spec.blank label ->
  FaceCapture.captureAndSend label true (Some d)
  = FaceCapture.Post {| reg_name := Some label; reg_descriptor := Some d |}.
Proof.
  intros H. apply not_blank in H. unfold FaceCapture.captureAndSend.
  now rewrite H.
Qed.

(** The body of an answer of [register-face] has no key [status]. *)
Lemma settled_any (res : register_response) :
  FaceCapture.settled (Some res) = "✅ undefined"%string.
Proof.
  destruct res as [status success [e|] [m|] [c|]]; reflexivity.
Qed.

(** X12.  The registration form cannot tell the outcome: once the server has
    answered, the status shown is ["✅ undefined"], the same for a face that
    was registered, for a name that was already taken (409, store unchanged)
    and for a rejected body (400). *)
Theorem form_status_ignores_answer (label : string) (d : list R) (db : list person) :
  ~ Spec.blank label ->
  (forall body db', FaceCapture.settled (Some (fst (register_face body db')))
                    = "✅ undefined"%string)
  /\ FaceCapture.submit label true (Some d) db
     = ("✅ undefined"%string,
        snd (register_face {| reg_name := Some label; reg_descriptor := Some d |} db))
  /\ (In label (map name db) ->
      FaceCapture.submit label true (Some d) db = ("✅ undefined"%string, db))
  /\ (~ In label (map name db) ->
      FaceCapture.submit label true (Some d) db
      = ("✅ undefined"%string, db ++ [{| name := label; descriptor := d |}])).
Proof.
  intros HB. pose proof (not_blank_not_empty label HB) as Hl.
  assert (S : FaceCapture.submit label true (Some d) db
              = ("✅ undefined"%string,
                 snd (register_face {| reg_name := Some label; reg_descriptor := Some d |} db))).
  { unfold FaceCapture.submit. rewrite (captureAndSend_posts label d HB).
    destruct (register_face _ db) as [res db']. now rewrite settled_any. }
  split; [intros; apply settled_any|]. split; [exact S|]. split; intros H; rewrite S.
  - now rewrite register_face_known.
  - now rewrite register_face_new.
Qed.

Lemma form_status_ignores_answer_witness :
  FaceCapture.submit "Alice" true (Some Sample.e2) [Sample.alice]
  = ("✅ undefined"%string, [Sample.alice]).
Proof.
  apply (proj1 (proj2 (proj2 (form_status_ignores_answer "Alice" Sample.e2 [Sample.alice]
                                (fun H => ltac:(discriminate H)))))).
  now left.
Defined.

Lemma submit_not_blank (a : FaceCapture.attempt) (db : list person) :
  Forall (fun p => ~ Spec.blank (name p)) db ->
  Forall (fun p => ~ Spec.blank (name p))
         (snd (FaceCapture.submit (FaceCapture.typed a) (FaceCapture.camera a)
                 (FaceCapture.detected a) db)).
Proof.
  intros H. destruct a as [label video detection]. cbn [FaceCapture.typed
    FaceCapture.camera FaceCapture.detected].
  unfold FaceCapture.submit, FaceCapture.captureAndSend.
  destruct (truthy (Some (trim label))) eqn:T; cbn [negb]; [|exact H].
  destruct video; cbn [negb]; [|exact H].
  destruct detection as [d|]; [|exact H].
  apply not_blank in T.
  destruct (register_face _ db) as [res db'] eqn:E. cbn [snd].
  destruct (in_dec string_dec label (map name db)) as [Hin|Hn].
  - rewrite (register_face_known label d db (not_blank_not_empty _ T) Hin) in E.
    injection E as _ <-. exact H.
  - rewrite (register_face_new label d db (not_blank_not_empty _ T) Hn) in E.
    injection E as _ <-. apply Forall_app. split; [exact H|]. now repeat constructor.
Qed.

(** X13.  Through the registration form no blank name reaches the store:
    if no name in the store is empty after trimming, the same holds after any
    number of uses of the form, whatever is typed. *)
Theorem form_keeps_names_visible (attempts : list FaceCapture.attempt) (db : list person) :
  Forall (fun p => ~ Spec.blank (name p)) db ->
  Forall (fun p => ~ Spec.blank (name p)) (FaceCapture.submit_all attempts db).
Proof.
  revert db; induction attempts as [|a attempts IH]; intros db H; [exact H|].
  cbn [FaceCapture.submit_all fold_left]. apply IH. now apply submit_not_blank.
Qed.

Lemma form_keeps_names_visible_witness :
  Forall (fun p => ~ Spec.blank (name p))
         (FaceCapture.submit_all
            [{| FaceCapture.typed := " "; FaceCapture.camera := true;
                FaceCapture.detected := Some Sample.e1 |};
             {| FaceCapture.typed := "Bob"; FaceCapture.camera := true;
                FaceCapture.detected := Some Sample.e2 |}] []).
Proof.
  apply (form_keeps_names_visible _ []). constructor.
Defined.


(** ** The dominant emotion *)

Section Dominant.
Import EmotionDetector.

Let pick (a b : string * number) : string * number :=
  if gt (snd a) (snd b) then a else b.

Lemma pick_fold_in (rest : list (string * number)) (first : string * number) :
  In (fold_left pick rest first) (first :: rest).
Proof.
  revert first; induction rest as [|b rest IH]; intros first; [now left|].
  cbn [fold_left]. destruct (IH (pick first b)) as [E|H].
  - rewrite <- E. unfold pick. destruct (gt _ _); [now left | right; now left].
  - right; now right.
Qed.

Lemma pick_fold_keep (rest : list (string * number)) (first : string * number) :
  (forall e, In e rest -> gt (snd first) (snd e) = true) ->
  fold_left pick rest first = first.
Proof.
  revert first; induction rest as [|b rest IH]; intros first H; [reflexivity|].
  cbn [fold_left]. unfold pick at 2. rewrite H by now left.
  apply IH. intros e He. apply H. now right.
Qed.

(** [<=] through a middle value that is a number. *)
Lemma not_gt_trans (x y z : number) :
  y <> NaN -> gt x y = false -> gt y z = false -> gt x z = false.
Proof.
  unfold gt. destruct x, y, z; simpl; intros N; try easy.
  rewrite !Rltb_false; lra.
Qed.

Lemma gt_not_gt (x y : number) : gt x y = true -> gt y x = false.
Proof.
  unfold gt. destruct x, y; simpl; try easy.
  rewrite Rltb_true, Rltb_false; lra.
Qed.

Lemma pick_fold_max (rest : list (string * number)) (first : string * number) :
  Forall (fun e => snd e <> NaN) (first :: rest) ->
  forall e, In e (first :: rest) ->
            gt (snd e) (snd (fold_left pick rest first)) = false.
Proof.
  revert first; induction rest as [|b rest IH]; intros first F e He.
  - destruct He as [<-|[]]. apply lt_irrefl.
  - cbn [fold_left].
    inversion F as [|? ? Hf F']; subst. inversion F' as [|? ? Hb F'']; subst.
    assert (Fp : Forall (fun e => snd e <> NaN) (pick first b :: rest))
      by (constructor; [unfold pick; destruct (gt _ _); assumption | assumption]).
    assert (P : gt (snd (pick first b)) (snd (fold_left pick rest (pick first b))) = false)
      by (apply (IH _ Fp); now left).
    destruct He as [<-|[<-|He]].
    + unfold pick in *. destruct (gt (snd first) (snd b)) eqn:G; [exact P|].
      eapply not_gt_trans; [exact Hb | exact G | exact P].
    + unfold pick in *. destruct (gt (snd first) (snd b)) eqn:G; [|exact P].
      eapply not_gt_trans; [exact Hf | now apply gt_not_gt | exact P].
    + apply (IH _ Fp). now right.
Qed.

End Dominant.

(** X16.  [getDominantEmotion] fails (a TypeError) exactly on an object with
    no keys; on entries whose values are numbers it returns a key of the
    object whose value no other value exceeds. *)
Theorem dominant_is_maximal (expressions : list (string * number)) :
  (EmotionDetector.getDominantEmotion expressions = None <-> expressions = [])
  /\ (expressions <> [] -> Forall (fun e => snd e <> NaN) expressions ->
      exists k x,
        EmotionDetector.getDominantEmotion expressions = Some k
        /\ In (k, x) expressions
        /\ forall e, In e expressions -> EmotionDetector.gt (snd e) x = false).
Proof.
  destruct expressions as [|first rest].
  - split; [now split|]. intros H; now elim H.
  - split; [split; discriminate|]. intros _ F.
    unfold EmotionDetector.getDominantEmotion, EmotionDetector.reduce.
    cbn [option_map].
    set (r := fold_left _ rest first).
    exists (fst r), (snd r). split; [reflexivity|]. split.
    + rewrite <- surjective_pairing. apply pick_fold_in.
    + intros e He. now apply pick_fold_max.
Qed.

Lemma dominant_is_maximal_witness :
  exists k x,
    EmotionDetector.getDominantEmotion
      [("neutral"%string, Num 0.2); ("happy"%string, Num 0.7); ("sad"%string, Num 0.1)]
    = Some k
    /\ In (k, x) [("neutral"%string, Num 0.2); ("happy"%string, Num 0.7);
                  ("sad"%string, Num 0.1)]
    /\ forall e, In e [("neutral"%string, Num 0.2); ("happy"%string, Num 0.7);
                       ("sad"%string, Num 0.1)] ->
                 EmotionDetector.gt (snd e) x = false.
Proof.
  apply (proj2 (dominant_is_maximal
                  [("neutral"%string, Num 0.2); ("happy"%string, Num 0.7);
                   ("sad"%string, Num 0.1)])).
  - discriminate.
  - repeat constructor; discriminate.
Defined.

(** X17.  Among equal largest values [getDominantEmotion] returns the last
    one: an entry that nothing before it exceeds and that exceeds everything
    after it is the one whose key is returned. *)
Theorem dominant_last_wins
  (before after : list (string * number)) (k : string) (x : number) :
  (forall e, In e before -> EmotionDetector.gt (snd e) x = false) ->
  (forall e, In e after -> EmotionDetector.gt x (snd e) = true) ->
  EmotionDetector.getDominantEmotion (before ++ (k, x) :: after) = Some k.
Proof.
  intros Hb Ha.
  unfold EmotionDetector.getDominantEmotion, EmotionDetector.reduce.
  destruct before as [|first before]; cbn [app option_map].
  - now rewrite pick_fold_keep.
  - rewrite fold_left_app. cbn [fold_left snd].
    pose proof (pick_fold_in before first) as Hin.
    rewrite (Hb _ Hin). now rewrite pick_fold_keep.
Qed.

Lemma dominant_last_wins_witness :
  EmotionDetector.getDominantEmotion
    ([("neutral"%string, Num 0.4)] ++ ("happy"%string, Num 0.4) :: [("sad"%string, Num 0.2)])
  = Some "happy"%string.
Proof.
  apply (dominant_last_wins [("neutral"%string, Num 0.4)] [("sad"%string, Num 0.2)]).
  - intros e [<-|[]]. apply lt_irrefl.
  - intros e [<-|[]]. apply lt_Num. lra.
Defined.

(** * Binary64 *)

(** ** The order of binary64 numbers *)

Section Order64.
Import BinInt PrimFloat SpecFloat FloatOps FloatAxioms.
Local Open Scope float_scope.

(** Case analysis on the three numbers of a statement about [SFcompare]. *)
Ltac order_cases :=
  unfold SFltb, SFeqb;
  repeat match goal with x : spec_float |- _ => destruct x end;
  cbn [SFcompare]; try discriminate; try reflexivity; try congruence;
  repeat match goal with b : bool |- _ => destruct b end;
  try discriminate; try reflexivity; try congruence;
  repeat match goal with
    | |- context [Z.compare ?a ?b] => destruct (Z.compare_spec a b)
    end; try discriminate; try reflexivity; try congruence; try lia; subst;
  rewrite ?Pos.compare_cont_spec; cbn [Pos.switch_Eq];
  repeat match goal with
    | |- context [Pos.compare ?a ?b] => destruct (Pos.compare_spec a b)
    end; cbn; try discriminate; try reflexivity; try congruence; try lia.



(** Two numbers are in one of the three relations. *)
Lemma SFltb_total (x y : spec_float) :
  x <> S754_nan -> y <> S754_nan ->
  SFltb x y = false -> SFeqb x y = false -> SFltb y x = true.
Proof. order_cases. Qed.

Lemma SFltb_not_nan (x y : spec_float) :
  SFltb x y = true -> x <> S754_nan /\ y <> S754_nan.
Proof. order_cases; split; discriminate. Qed.




Lemma is_nan_spec (x : float) : is_nan x = false -> Prim2SF x <> S754_nan.
Proof.
  unfold is_nan. rewrite eqb_spec. intros H E. rewrite E in H. discriminate.
Qed.

Lemma SFeqb_refl (x : spec_float) : x <> S754_nan -> SFeqb x x = true.
Proof. order_cases. Qed.

(** Both sides of a comparison that holds are numbers. *)
Lemma ltb64_numbers (x y : float) :
  (x <? y) = true -> is_nan x = false /\ is_nan y = false.
Proof.
  rewrite ltb_spec. intros H. destruct (SFltb_not_nan _ _ H) as [Hx Hy].
  unfold is_nan. rewrite !eqb_spec, !SFeqb_refl by assumption. now split.
Qed.

Lemma ltb64_total (x y : float) :
  is_nan x = false -> is_nan y = false ->
  (x <? y) = false -> (x =? y) = false -> (y <? x) = true.
Proof.
  rewrite !ltb_spec, eqb_spec. intros Hx Hy.
  apply SFltb_total; now apply is_nan_spec.
Qed.




(** ** Arithmetic facts *)

Lemma binary_round_aux_sign (s : bool) (m e : Z) (l : location) :
  binary_round_aux prec emax s m e l = S754_zero s
  \/ binary_round_aux prec emax s m e l = S754_infinity s
  \/ binary_round_aux prec emax s m e l = S754_nan
  \/ exists m' e', binary_round_aux prec emax s m e l = S754_finite s m' e'.
Proof.
  unfold binary_round_aux.
  destruct (shr_fexp prec emax m e l) as [mrs' e'].
  destruct (shr_fexp prec emax _ e' loc_Exact) as [mrs'' e''].
  destruct (shr_m mrs'') as [|p|p].
  - now left.
  - destruct (Z.leb e'' _); [|now right; left].
    right; right; right. now exists p, e''.
  - now right; right; left.
Qed.

(** [Math.sqrt] never returns a number below 0. *)
Lemma sqrt64_not_negative (x : float) : (sqrt x <? 0) = false.
Proof.
  rewrite ltb_spec, sqrt_spec. change (Prim2SF 0) with (S754_zero false).
  unfold SF64sqrt, SFsqrt.
  destruct (Prim2SF x) as [s|[|]| |[|] m e]; try reflexivity.
  destruct (SFsqrt_core_binary prec emax (Zpos m) e) as [[mz ez] lz].
  destruct (binary_round_aux_sign false mz ez lz) as [E|[E|[E|[m' [e' E]]]]];
    rewrite E; reflexivity.
Qed.

(** A finite number is a zero or has a mantissa and an exponent. *)
Lemma is_finite_spec (x : float) :
  is_finite x = true ->
  (exists s, Prim2SF x = S754_zero s) \/ (exists s m e, Prim2SF x = S754_finite s m e).
Proof.
  unfold is_finite. rewrite negb_true_iff, orb_false_iff. intros [Hn Hi].
  unfold Prim2SF. rewrite Hn, Hi.
  destruct (is_zero x); [left; eauto|].
  destruct (Z.frexp x) as [r e].
  destruct (shr_fexp _ _ _ _ _) as [mrs e'].
  destruct (shr_m mrs); eauto.
Qed.

(** [x - x] is [+0] for a finite [x]. *)
Lemma sub64_self (x : float) : is_finite x = true -> x - x = 0.
Proof.
  intros H. apply Prim2SF_inj. rewrite sub_spec.
  change (Prim2SF 0) with (S754_zero false).
  destruct (is_finite_spec x H) as [[s E]|[s [m [e E]]]]; rewrite E.
  - now destruct s.
  - unfold SF64sub, SFsub. rewrite Z.min_id. unfold shl_align.
    rewrite Z.sub_diag. reflexivity.
Qed.

End Order64.

(** ** The loop of [euclideanDistance] on binary64 *)

Section Distance64.
Import PrimFloat JS64 Server64.
Local Open Scope float_scope.

Lemma fold_left_agree {A B : Type} (f g : A -> B -> A) (l : list B) (a : A) :
  (forall a x, In x l -> f a x = g a x) -> fold_left f l a = fold_left g l a.
Proof.
  revert a; induction l as [|x l IH]; intros a H; [reflexivity|].
  cbn [fold_left]. rewrite (H a x) by now left.
  apply IH. intros a' x' Hx. apply H. now right.
Qed.

Lemma read_within (d : list float) (i : nat) :
  (i < List.length d)%nat -> ToNumber (at_index d i) = nth i d 0.
Proof.
  intros H. unfold at_index, ToNumber.
  destruct (nth_error d i) as [x|] eqn:E.
  - symmetry. now apply nth_error_nth.
  - apply nth_error_None in E. lia.
Qed.

Lemma euclideanDistance64_indices (q r : list float) :
  (List.length q <= List.length r)%nat ->
  euclideanDistance q r
  = sqrt (fold_left
            (fun sum i => sum + (nth i q 0 - nth i r 0) * (nth i q 0 - nth i r 0))
            (seq 0 (List.length q)) 0).
Proof.
  intros L. unfold euclideanDistance, Math_sqrt, Math_pow_2. f_equal.
  apply fold_left_agree. intros a i Hi. apply in_seq in Hi.
  now rewrite !read_within by lia.
Qed.

Lemma fold_left_zero (l : list nat) : fold_left (fun sum _ => sum + 0) l 0 = 0.
Proof. induction l as [|i l IH]; [reflexivity|]. exact IH. Qed.

(** A descriptor of finite numbers is at distance [+0] from itself. *)
Lemma euclideanDistance64_self (d : list float) :
  Forall (fun x => isFinite x = true) d -> euclideanDistance d d = 0.
Proof.
  intros F. rewrite euclideanDistance64_indices by lia.
  rewrite (fold_left_agree _ (fun sum _ => sum + 0)).
  - now rewrite fold_left_zero.
  - intros a i Hi. apply in_seq in Hi. rewrite sub64_self; [reflexivity|].
    rewrite Forall_forall in F. apply F. apply nth_In. lia.
Qed.

Lemma euclideanDistance64_not_negative (q r : list float) :
  (euclideanDistance q r <? 0) = false.
Proof. apply sqrt64_not_negative. Qed.

End Distance64.

(** ** The scan on binary64 *)

Section Scan64.
Import PrimFloat JS64 Server64.
Local Open Scope float_scope.
Variable q : list float.

Let dist (p : person) : float := euclideanDistance q (descriptor p).
Let hit (p : person) : best := {| best_name := Some (name p); best_distance := dist p |}.

Lemma visit64_cases (b : best) (p : person) :
  (visit q b p = b
   /\ ((dist p <? 0.6) = false \/ (dist p <? best_distance b) = false))
  \/ (visit q b p = hit p
      /\ (dist p <? 0.6) = true /\ (dist p <? best_distance b) = true).
Proof.
  unfold visit. fold (dist p).
  destruct (dist p <? 0.6), (dist p <? best_distance b); simpl; auto.
Qed.




Lemma scan64_stable (db : list person) (b : best) :
  (forall p, In p db -> (dist p <? best_distance b) = false) ->
  fold_left (visit q) db b = b.
Proof.
  revert b; induction db as [|a db IH]; intros b H; [reflexivity|].
  cbn [fold_left].
  destruct (visit64_cases b a) as [[E _]|[_ [_ E]]].
  - rewrite E. apply IH. intros p Hp; apply H; now right.
  - rewrite H in E by now left. discriminate.
Qed.


(** The first record at the least accepted distance is the one returned. *)
Lemma scan64_first_minimum (db : list person) (b : best) (i : nat) (p : person) :
  nth_error db i = Some p ->
  (dist p <? 0.6) = true ->
  (dist p <? best_distance b) = true ->
  (forall k pk, nth_error db k = Some pk -> (dist pk <? dist p) = false) ->
  (forall k pk, (k < i)%nat -> nth_error db k = Some pk -> (dist pk =? dist p) = false) ->
  fold_left (visit q) db b = hit p.
Proof.
  unfold hit, dist.
  revert b i; induction db as [|a db IH]; intros b i Hi Hd Hb Hmin Hfirst.
  - now destruct i.
  - cbn [fold_left]. destruct i as [|i]; cbn [nth_error] in Hi.
    + injection Hi as ->.
      destruct (visit64_cases b p) as [[_ [H|H]]|[E _]]; unfold dist in *.
      * congruence.
      * congruence.
      * rewrite E. apply scan64_stable. intros p' Hin'.
        destruct (In_nth_error _ _ Hin') as [k Hk].
        cbn [best_distance]. exact (Hmin (S k) p' Hk).
    + assert (Hmin' : forall k pk, nth_error db k = Some pk ->
                (euclideanDistance q (descriptor pk)
                 <? euclideanDistance q (descriptor p)) = false)
        by (intros k pk Hk; exact (Hmin (S k) pk Hk)).
      assert (Hfirst' : forall k pk, (k < i)%nat -> nth_error db k = Some pk ->
                (euclideanDistance q (descriptor pk)
                 =? euclideanDistance q (descriptor p)) = false)
        by (intros k pk Hlt Hk; apply (Hfirst (S k) pk); [lia | exact Hk]).
      destruct (visit64_cases b a) as [[E _]|[E [H1 _]]]; rewrite E.
      * now apply (IH b i).
      * apply (IH _ i); auto. cbn [best_distance]. unfold dist in *.
        apply ltb64_total.
        -- exact (proj1 (ltb64_numbers _ _ H1)).
        -- exact (proj1 (ltb64_numbers _ _ Hd)).
        -- exact (Hmin 0%nat a eq_refl).
        -- exact (Hfirst 0%nat a (Nat.lt_0_succ i) eq_refl).
Qed.

End Scan64.

(** ** The binary64 store under [register-face] *)

Section Store64.
Import PrimFloat JS64 Server64.
Local Open Scope float_scope.

Lemma some_name64 (label : string) (db : list person) :
  existsb (fun entry => (name entry =? label)%string) db = true
  <-> In label (map name db).
Proof.
  rewrite existsb_exists, in_map_iff.
  split; intros [p [H1 H2]]; exists p.
  - apply String.eqb_eq in H2. auto.
  - split; [exact H2 | now apply String.eqb_eq].
Qed.

Lemma register_face64_new (label : string) (e : list float) (db : list person) :
  label <> ""%string -> ~ In label (map name db) ->
  register_face {| reg_name := Some label; reg_descriptor := Some e |} db
  = ({| Server.reg_status := 200; Server.reg_success := true; Server.reg_error := None;
        Server.reg_message := Some ("Face registered for " ++ label)%string;
        Server.reg_count := Some (S (List.length db)) |},
     db ++ [{| name := label; descriptor := e |}]).
Proof.
  intros Hl Hn. unfold register_face. cbn [reg_name reg_descriptor].
  apply truthy_Some in Hl. rewrite Hl. cbn [negb].
  destruct (existsb _ db) eqn:E; [now apply some_name64 in E|].
  rewrite length_app, Nat.add_1_r. reflexivity.
Qed.



Lemma recognize_face64_store (body : recognize_body) (db : list person) :
  snd (recognize_face body db) = db.
Proof.
  unfold recognize_face. destruct (rec_descriptor body); [|reflexivity].
  now destruct (JS.truthy _).
Qed.



Lemma recognize_face64_hit (q : list float) (db : list person) (label : string) (d : float) :
  label <> ""%string ->
  scan q db = {| best_name := Some label; best_distance := d |} ->
  fst (recognize_face {| rec_descriptor := Some q |} db)
  = {| rec_status := 200; rec_recognized := true; rec_error := None;
       rec_name := Some label; rec_confidence := Some (1 - d / 0.6);
       rec_message := None |}.
Proof.
  intros Hl E. unfold recognize_face. cbn [rec_descriptor]. rewrite E.
  cbn [best_name best_distance]. apply truthy_Some in Hl. now rewrite Hl.
Qed.

End Store64.

(** ** The least distance *)

Section Least64.
Import PrimFloat JS64 Server64.
Local Open Scope float_scope.
Variable q : list float.

Let dist (p : person) : float := euclideanDistance q (descriptor p).






End Least64.

(** ** The claims that depend on the value of a distance *)

Section Claims64.
Import PrimFloat JS64 Server64.
Local Open Scope float_scope.




(** C7 (as amended).  On two arrays of length [D] the distance the loop
    computes is the binary64 evaluation of [sqrt(Σ_i (q_i - r_i)^2)]: the
    differences, their squares, the sum taken from index 0 upwards and the
    square root are each rounded to binary64. *)
Theorem euclideanDistance64_formula (q r : list float) :
  List.length q = Spec.D -> List.length r = Spec.D ->
  euclideanDistance q r = Spec64.distance q r.
Proof.
  intros Lq Lr. rewrite euclideanDistance64_indices by lia.
  unfold Spec64.distance. now rewrite Lq.
Qed.

Lemma euclideanDistance64_formula_witness :
  euclideanDistance Sample64.e1 Sample64.e2 = Spec64.distance Sample64.e1 Sample64.e2.
Proof.
  apply (euclideanDistance64_formula Sample64.e1 Sample64.e2); reflexivity.
Defined.

(** C7, refuted as stated: [huge] differs from [zeros] by the finite number
    [1e200] in one coordinate, and the distance computed is [Infinity];
    [tiny] differs from [zeros] in one coordinate, and the distance computed
    is 0. *)
Lemma distance_overflows_and_underflows :
  (euclideanDistance Sample64.huge Sample64.zeros = infinity
   /\ forallb isFinite Sample64.huge = true)
  /\ (euclideanDistance Sample64.tiny Sample64.zeros = 0
      /\ Sample64.tiny <> Sample64.zeros).
Proof.
  split; split; try (vm_compute; reflexivity).
  intros H. apply (f_equal (fun d => hd 0 d =? 0)) in H.
  vm_compute in H. discriminate H.
Qed.

End Claims64.

(** ** Register, then recognize, on binary64 *)

Section RoundTrip64.
Import PrimFloat JS64 Server64.
Local Open Scope float_scope.

(** A record of finite numbers pushed onto a store that has no record at
    computed distance 0 from its descriptor is the one the scan of that
    descriptor ends on. *)
Lemma scan64_new_record (db : list person) (label : string) (d : list float) :
  forallb isFinite d = true ->
  (forall p, In p db -> (euclideanDistance d (descriptor p) =? 0) = false) ->
  scan d (db ++ [{| name := label; descriptor := d |}])
  = {| best_name := Some label; best_distance := 0 |}.
Proof.
  intros F Hz.
  assert (Z : euclideanDistance d d = 0).
  { apply euclideanDistance64_self. apply Forall_forall. intros x Hx.
    rewrite forallb_forall in F. now apply F. }
  unfold scan.
  rewrite (scan64_first_minimum d _ _ (List.length db)
             {| name := label; descriptor := d |}); cbn [name descriptor].
  - now rewrite Z.
  - rewrite nth_error_app2, Nat.sub_diag by lia. reflexivity.
  - rewrite Z. reflexivity.
  - rewrite Z. reflexivity.
  - intros k pk _. rewrite Z. apply euclideanDistance64_not_negative.
  - intros k pk Hk E. rewrite Z. apply Hz.
    rewrite nth_error_app1 in E by exact Hk. eapply nth_error_In. exact E.
Qed.

(** X3.  Register, then recognize: when a descriptor of finite numbers is
    registered under a new, non-empty name and no record already in the store
    is at computed distance 0 from it, recognizing that descriptor afterwards
    answers with that name and confidence 1. *)
Theorem register_then_recognize64 (db : list person) (label : string) (d : list float) :
  label <> ""%string ->
  ~ In label (map name db) ->
  forallb isFinite d = true ->
  (forall p, In p db -> (euclideanDistance d (descriptor p) =? 0) = false) ->
  fst (recognize_face {| rec_descriptor := Some d |}
         (snd (register_face {| reg_name := Some label; reg_descriptor := Some d |} db)))
  = {| rec_status := 200; rec_recognized := true; rec_error := None;
       rec_name := Some label; rec_confidence := Some 1;
       rec_message := None |}.
Proof.
  intros Hl Hn F Hz. rewrite (register_face64_new label d db Hl Hn). cbn [snd].
  now rewrite (recognize_face64_hit d _ label 0 Hl (scan64_new_record db label d F Hz)).
Qed.

(** Bob is registered after Alice, who is at distance [sqrt 2] from him. *)
Lemma register_then_recognize64_witness :
  fst (recognize_face {| rec_descriptor := Some Sample64.e2 |}
         (snd (register_face {| reg_name := Some "Bob"%string;
                                reg_descriptor := Some Sample64.e2 |}
                 [Sample64.alice])))
  = {| rec_status := 200; rec_recognized := true; rec_error := None;
       rec_name := Some "Bob"%string; rec_confidence := Some 1;
       rec_message := None |}.
Proof.
  apply (register_then_recognize64 [Sample64.alice] "Bob" Sample64.e2).
  - discriminate.
  - intros [H|[]]. discriminate H.
  - vm_compute. reflexivity.
  - intros p [<-|[]]. vm_compute. reflexivity.
Defined.

Lemma captureAndSend64_posts (label : string) (d : list float) :
  ~ Spec.blank label ->
  FaceCapture64.captureAndSend label true (Some d)
  = FaceCapture64.Post {| reg_name := Some label; reg_descriptor := Some d |}.
Proof.
  intros H. apply not_blank in H. unfold FaceCapture64.captureAndSend.
  now rewrite H.
Qed.

(** X14.  From the form to the attendance screen: after a descriptor of
    finite numbers is registered through the form under a name that is new
    and not blank, in a store with no record at computed distance 0 from it,
    the attendance component shown the same descriptor displays
    ["✅ Attendance Marked for: "] followed by the name as it was typed, and
    leaves the store as it is. *)
Theorem form_then_attendance64 (db : list person) (label : string) (d : list float) :
  ~ Spec.blank label ->
  ~ In label (map name db) ->
  forallb isFinite d = true ->
  (forall p, In p db -> (euclideanDistance d (descriptor p) =? 0) = false) ->
  FaceRecognition64.submit (Some d) (snd (FaceCapture64.submit label true (Some d) db))
  = (("✅ Attendance Marked for: " ++ label)%string,
     db ++ [{| name := label; descriptor := d |}]).
Proof.
  intros HB Hn F Hz. pose proof (not_blank_not_empty label HB) as Hl.
  unfold FaceCapture64.submit. rewrite (captureAndSend64_posts label d HB).
  rewrite (register_face64_new label d db Hl Hn). cbn [snd].
  unfold FaceRecognition64.submit, FaceRecognition64.recognizeFace.
  pose proof (recognize_face64_hit d _ label 0 Hl (scan64_new_record db label d F Hz)) as E.
  pose proof (recognize_face64_store {| rec_descriptor := Some d |}
                (db ++ [{| name := label; descriptor := d |}])) as S.
  destruct (recognize_face _ _) as [res db']. cbn [fst snd] in E, S. subst res db'.
  reflexivity.
Qed.

Lemma form_then_attendance64_witness :
  FaceRecognition64.submit (Some Sample64.e2)
    (snd (FaceCapture64.submit "Bob" true (Some Sample64.e2) [Sample64.alice]))
  = ("✅ Attendance Marked for: Bob"%string, [Sample64.alice; Sample64.bob]).
Proof.
  apply (form_then_attendance64 [Sample64.alice] "Bob" Sample64.e2).
  - discriminate.
  - intros [H|[]]. discriminate H.
  - vm_compute. reflexivity.
  - intros p [<-|[]]. vm_compute. reflexivity.
Defined.

(** ** The code on binary64, evaluated *)

(** The scenario of the specification: Alice at [[1,0,...]], Bob at
    [[0,1,0,...]]. *)
Example scenario64 :
  fst (recognize_face {| rec_descriptor := Some Sample64.e1 |}
         (serve [Sample64.register_alice; Sample64.register_bob] faceDB_init))
  = {| rec_status := 200; rec_recognized := true; rec_error := None;
       rec_name := Some "Alice"%string; rec_confidence := Some 1;
       rec_message := None |}
  /\ fst (recognize_face {| rec_descriptor := Some Sample64.e3 |}
            (serve [Sample64.register_alice; Sample64.register_bob] faceDB_init))
     = {| rec_status := 200; rec_recognized := false; rec_error := None;
          rec_name := None; rec_confidence := None;
          rec_message := Some "No match found"%string |}.
Proof. split; vm_compute; reflexivity. Qed.

(** A query at distance exactly [0.6] from the only record is not matched. *)
Example threshold_boundary64 :
  euclideanDistance (0.6 :: repeat 0 127) Sample64.zeros = Spec64.threshold
  /\ rec_recognized
       (fst (recognize_face {| rec_descriptor := Some (0.6 :: repeat 0 127) |}
               [{| name := "Origin"; descriptor := Sample64.zeros |}]))
     = false.
Proof. split; vm_compute; reflexivity. Qed.

(** The sum is taken in index order: the same coordinates in another order
    give another distance, and the closer of the two records is returned
    whichever was registered first. *)
Example order_of_coordinates :
  Permutation.Permutation Sample64.late Sample64.early
  /\ euclideanDistance Sample64.zeros Sample64.late = 0x1.0000000000001p-1
  /\ euclideanDistance Sample64.zeros Sample64.early = 0.5
  /\ rec_name
       (fst (recognize_face {| rec_descriptor := Some Sample64.zeros |}
               [{| name := "Late"; descriptor := Sample64.late |};
                {| name := "Early"; descriptor := Sample64.early |}]))
     = Some "Early"%string.
Proof.
  split; [|split; [|split]]; try (vm_compute; reflexivity).
  unfold Sample64.late, Sample64.early.
  symmetry. apply Permutation.Permutation_middle.
Qed.

End RoundTrip64.

(** ** Trimming, evaluated *)

(** White space of one, two and three bytes is cut at both ends and kept
    inside: here TAB, U+00A0 and U+3000 before ["a b"], U+2003, U+FEFF and LF
    after it; a name of white space alone is blank. *)
Example trim_unicode :
  JS.trim (String "009" (String "194" (String "160"
            (String "227" (String "128" (String "128"
              ("a b" ++ String "226" (String "128" (String "131"
                          (String "239" (String "187" (String "191"
                            (String "010" "")))))))))))))
  = "a b"%string
  /\ Spec.blank (String "194" (String "160" (String "032" "")))
  /\ FaceCapture.captureAndSend (String "194" (String "160" "")) true (Some Sample.e1)
     = FaceCapture.Show "⚠️ Please enter a name.".
Proof. repeat split. Qed.
